(** * Kanpai: agent run states, scoped transitions, event queue and delegation

    A shallow embedding of the orchestration core of [kanpai]:
    - [kanpai/app.py]: the application root [Kanpai] (event queue, dispatch
      loop, resource cleanup);
    - [kanpai/base_kani.py]: [BaseKani] (scoped run-state transitions,
      [last_user_message], [get_model_completion]);
    - [kanpai/mixins/delegate_and_wait.py]: [DelegateWaitMixin]
      ([delegate] and [wait]).

    Python objects are records, dictionaries are [gmap]s keyed by strings,
    methods are computations in a state-and-exception monad over the object
    they mutate.  Collaborators that live outside the repository (the
    completion backend, [asyncio], [rapidfuzz], [repr]) enter as arguments
    or section variables. *)

From Stdlib Require Import QArith.
From stdpp Require Import gmap strings list fin_maps sorting.

#[local] Close Scope Q_scope.

#[local] Open Scope string_scope.

(** ** Values shared by all modules *)

(** [kanpai.state.RunState]. *)
Inductive RunState := STOPPED | RUNNING | WAITING | ERRORED.

#[global] Instance RunState_eq_dec : EqDecision RunState.
Proof. solve_decision. Defined.

(** [kani.ChatRole]. *)
Inductive ChatRole := SYSTEM | USER | ASSISTANT | FUNCTION.

#[global] Instance ChatRole_eq_dec : EqDecision ChatRole.
Proof. solve_decision. Defined.

(** [kani.FunctionCall]: a function name and its JSON-encoded arguments. *)
Record FunctionCall := mkFunctionCall {
  fc_name : string;
  fc_arguments : string
}.

(** [kani.ChatMessage]. *)
Record ChatMessage := mkChatMessage {
  role : ChatRole;
  content : option string;
  msg_name : option string;
  function_call : option FunctionCall
}.

#[global] Instance FunctionCall_eq_dec : EqDecision FunctionCall.
Proof. solve_decision. Defined.

#[global] Instance ChatMessage_eq_dec : EqDecision ChatMessage.
Proof. solve_decision. Defined.

(** [kani.engines.base.Completion]: both token counts may be [None]. *)
Record Completion := mkCompletion {
  message : ChatMessage;
  prompt_tokens : option nat;
  completion_tokens : option nat
}.

(** The events of [kanpai.events] that the modelled code constructs. *)
Inductive Event :=
| KaniSpawn (id : string) (parent : option string)
            (always_included_messages chat_history : list ChatMessage)
| KaniMessage (id : string) (msg : ChatMessage)
| KaniStateChange (id : string) (state : RunState)
| TokensUsed (id : string) (prompt_tokens completion_tokens : option nat).

#[global] Instance Event_eq_dec : EqDecision Event.
Proof. solve_decision. Defined.

(** Python exceptions that the modelled code can raise or let through. *)
Inductive exn :=
| ValueError (msg : string)
| KeyError (key : string)
| InvalidStateError
| ExternalError (msg : string).

(** The double quote, for messages that contain it. *)
Definition DQ : string :=
  String (Ascii.Ascii false true false false false true false false) EmptyString.

(** The line feed, Python's ["\n"]. *)
Definition LF : string :=
  String (Ascii.Ascii false true false true false false false false) EmptyString.

(** ** Computations: state, exceptions and suspension

    A method of an object of type [S] is a function from the object's state
    to an outcome and the state it leaves behind.  A raised exception keeps
    the mutations made so far, as in Python; [Blocked] is a coroutine that
    is suspended at an [await] which never resumes. *)

Inductive outcome (A : Type) :=
| Ret (a : A)
| Raise (e : exn)
| Blocked.
Arguments Ret {A} a.
Arguments Raise {A} e.
Arguments Blocked {A}.

Definition M (S A : Type) : Type := S → outcome A * S.

#[global] Instance M_ret {S} : MRet (M S) := fun A a s => (Ret a, s).

#[global] Instance M_bind {S} : MBind (M S) := fun A B f m s =>
  match m s with
  | (Ret a, s') => f a s'
  | (Raise e, s') => (Raise e, s')
  | (Blocked, s') => (Blocked, s')
  end.

Definition raise {S A} (e : exn) : M S A := fun s => (Raise e, s).
Definition get {S} : M S S := fun s => (Ret s, s).
Definition modify {S} (f : S → S) : M S unit := fun s => (Ret tt, f s).

(** ** The application root, [kanpai/app.py] *)

Module App.

(** The background task created in [Kanpai.__init__]. *)
Inductive TaskState := TaskRunning | TaskCancelled.

(** The releases [Kanpai.close] performs, in the order it performs them. *)
Inductive Release :=
| CancelDispatch
| CloseEngine
| CloseLongEngine
| CloseBrowser
| StopPlaywright.

#[global] Instance Release_eq_dec : EqDecision Release.
Proof. solve_decision. Defined.

(** [Kanpai]: [browser] and [playwright] are [None] until [get_browser] is
    first called.  The engines, the browser and playwright are external
    handles; what [close] does to them is kept in [release_log], the release
    calls made so far, oldest first. *)
Record Kanpai := mkKanpai {
  event_queue : list Event;
  dispatch_task : TaskState;
  playwright : option string;
  browser : option string;
  release_log : list Release
}.

(** [Kanpai.__init__]. *)
Definition new : Kanpai :=
  {| event_queue := []; dispatch_task := TaskRunning;
     playwright := None; browser := None; release_log := [] |}.

Definition with_event_queue (q : list Event) (app : Kanpai) : Kanpai :=
  {| event_queue := q; dispatch_task := dispatch_task app;
     playwright := playwright app; browser := browser app;
     release_log := release_log app |}.

Definition with_dispatch_task (t : TaskState) (app : Kanpai) : Kanpai :=
  {| event_queue := event_queue app; dispatch_task := t;
     playwright := playwright app; browser := browser app;
     release_log := release_log app |}.

Definition log_release (r : Release) (app : Kanpai) : Kanpai :=
  {| event_queue := event_queue app; dispatch_task := dispatch_task app;
     playwright := playwright app; browser := browser app;
     release_log := release_log app ++ [r] |}.

(** [Kanpai.dispatch]: [self.event_queue.put_nowait(event)] on an unbounded
    queue. *)
Definition dispatch (event : Event) (app : Kanpai) : Kanpai :=
  with_event_queue (event_queue app ++ [event]) app.

(** *** The dispatch loop, [Kanpai._dispatch_task]

    One turn of the [while True] loop.  The turn awaits
    [self.event_queue.get()]: on an empty queue the task stays suspended
    there, a cancelled task gets [CancelledError] at that await and returns.
    Otherwise the oldest event is taken and bound to [event]; the body then
    calls nothing (the call of the listeners is a todo in the source), so
    the list of listener calls a turn makes is empty, whatever the type [L]
    of listeners. *)
Inductive Turn (L : Type) :=
| Handled (event : Event) (calls : list (L * Event)) (app : Kanpai)
| Suspended
| Exited.
Arguments Handled {L} event calls app.
Arguments Suspended {L}.
Arguments Exited {L}.

Definition _dispatch_task_turn {L} (app : Kanpai) : Turn L :=
  match dispatch_task app with
  | TaskCancelled => Exited
  | TaskRunning =>
      match event_queue app with
      | [] => Suspended
      | event :: rest => Handled event [] (with_event_queue rest app)
      end
  end.

(** What an observer of the bus sees: the events the loop has taken from the
    queue and the listener calls it has made, both oldest first. *)
Record Observed (L : Type) := mkObserved {
  taken : list Event;
  calls : list (L * Event)
}.
Arguments mkObserved {L} taken calls.
Arguments taken {L} o.
Arguments calls {L} o.

(** The cooperative schedule: producers publish, the loop takes a turn, or
    the dispatch task is cancelled. *)
Inductive Action :=
| Publish (event : Event)
| LoopTurn
| Cancel.

Definition step {L} (a : Action) (st : Kanpai * Observed L)
  : Kanpai * Observed L :=
  let '(app, obs) := st in
  match a with
  | Publish event => (dispatch event app, obs)
  | LoopTurn =>
      match _dispatch_task_turn app with
      | Handled event cs app' =>
          (app', mkObserved (taken obs ++ [event]) (calls obs ++ cs))
      | Suspended | Exited => st
      end
  | Cancel => (with_dispatch_task TaskCancelled app, obs)
  end.

Definition run {L} (acts : list Action) (st : Kanpai * Observed L)
  : Kanpai * Observed L :=
  foldl (fun st a => step a st) st acts.

Definition start {L} : Kanpai * Observed L := (new, mkObserved [] []).

(** The events a schedule publishes, in publication order. *)
Definition published (acts : list Action) : list Event :=
  omap (fun a => match a with Publish e => Some e | _ => None end) acts.

(** The fan-out as the specification words it, for comparison with [calls]:
    every event in publication order, and for each event every registered
    listener in registration order. *)
Definition spec_deliveries {L} (listeners : list L) (events : list Event)
  : list (L * Event) :=
  e ← events; l ← listeners; [(l, e)].

(** *** Cleanup, [Kanpai.close]

    [fails r] tells whether the external release [r] raises.  Every awaited
    release is logged when it is called, then raises or returns. *)
Section Close.

Variable fails : Release → bool.

Definition release (r : Release) : M Kanpai unit := fun app =>
  let app' := log_release r app in
  if fails r then (Raise (ExternalError "release failed"), app')
  else (Ret tt, app').

(** [self.dispatch_task.cancel()] does not raise. *)
Definition cancel_dispatch_task : M Kanpai unit := fun app =>
  (Ret tt, log_release CancelDispatch (with_dispatch_task TaskCancelled app)).

Definition close : M Kanpai unit :=
  cancel_dispatch_task;;
  release CloseEngine;;
  release CloseLongEngine;;
  app ← get;
  (if browser app is Some _ then release CloseBrowser else mret tt);;
  (if playwright app is Some _ then release StopPlaywright else mret tt).

(** The awaited releases [close] owes on [app] after it has cancelled the
    dispatch task, in order. *)
Definition owed (app : Kanpai) : list Release :=
  [CloseEngine; CloseLongEngine]
  ++ (if browser app is Some _ then [CloseBrowser] else [])
  ++ (if playwright app is Some _ then [StopPlaywright] else []).

(** The releases up to and including the first one that fails. *)
Fixpoint until_failure (rs : list Release) : list Release :=
  match rs with
  | [] => []
  | r :: rs' => r :: (if fails r then [] else until_failure rs')
  end.

End Close.

End App.

(** ** Agent nodes, [kanpai/base_kani.py] *)

Module BaseKani.

(** A delegate as its owner refers to it: the helper object's identity. *)
Record Helper := mkHelper {
  helper_id : string;
  helper_name : string;
  helper_depth : nat
}.

#[global] Instance Helper_eq_dec : EqDecision Helper.
Proof. solve_decision. Defined.

(** The task [asyncio.create_task(_task())] of [delegate]: the closure holds
    the helper and the instructions it was started with. *)
Record Future := mkFuture {
  fut_helper : Helper;
  fut_instructions : string
}.

#[global] Instance Future_eq_dec : EqDecision Future.
Proof. solve_decision. Defined.

(** A [BaseKani], with the two dictionaries [DelegateWaitMixin.__init__]
    adds.  [app] is the application root the node publishes to. *)
Record BaseKani := mkBaseKani {
  app : App.Kanpai;
  id : string;
  name : string;
  depth : nat;
  state : RunState;
  chat_history : list ChatMessage;
  helpers : gmap string Helper;
  helper_futures : gmap string Future
}.

Definition with_app (a : App.Kanpai) (self : BaseKani) : BaseKani :=
  {| app := a; id := id self; name := name self; depth := depth self;
     state := state self; chat_history := chat_history self;
     helpers := helpers self; helper_futures := helper_futures self |}.

Definition with_state (st : RunState) (self : BaseKani) : BaseKani :=
  {| app := app self; id := id self; name := name self; depth := depth self;
     state := st; chat_history := chat_history self;
     helpers := helpers self; helper_futures := helper_futures self |}.

Definition with_helpers (h : gmap string Helper) (self : BaseKani) : BaseKani :=
  {| app := app self; id := id self; name := name self; depth := depth self;
     state := state self; chat_history := chat_history self;
     helpers := h; helper_futures := helper_futures self |}.

Definition with_helper_futures (f : gmap string Future) (self : BaseKani)
  : BaseKani :=
  {| app := app self; id := id self; name := name self; depth := depth self;
     state := state self; chat_history := chat_history self;
     helpers := helpers self; helper_futures := f |}.

(** [self.app.dispatch(event)]. *)
Definition dispatch (event : Event) (self : BaseKani) : BaseKani :=
  with_app (App.dispatch event (app self)) self.

(** *** [str.startswith] and [str.removeprefix] *)

(** [strip p s] is the rest of [s] after the prefix [p], if [s] starts
    with [p]. *)
Fixpoint strip (p s : string) : option string :=
  match p, s with
  | EmptyString, _ => Some s
  | String a p', String b s' => if decide (a = b) then strip p' s' else None
  | String _ _, EmptyString => None
  end.

Definition startswith (s p : string) : bool :=
  if strip p s is Some _ then true else false.

Definition removeprefix (s p : string) : string :=
  default s (strip p s).

(** *** [BaseKani.get_model_completion]

    [super_completion] is [super().get_model_completion(...)], the call into
    the completion backend. *)
Definition get_model_completion (super_completion : M BaseKani Completion)
  : M BaseKani Completion :=
  completion ← super_completion;
  self ← get;
  modify (dispatch (TokensUsed (id self) (prompt_tokens completion)
                               (completion_tokens completion)));;
  let message := message completion in
  match function_call message with
  | Some function_call =>
      if startswith (fc_name function_call) "functions." then
        let fixed_name := removeprefix (fc_name function_call) "functions." in
        let message :=
          {| role := role message; content := content message;
             msg_name := msg_name message;
             function_call :=
               Some {| fc_name := fixed_name;
                       fc_arguments := fc_arguments function_call |} |} in
        mret {| message := message;
                prompt_tokens := prompt_tokens completion;
                completion_tokens := completion_tokens completion |}
      else mret completion
  | None => mret completion
  end.

(** *** [BaseKani.last_user_message]

    [next((m for m in self.chat_history if m.role == ChatRole.USER), None)]:
    the first element the generator yields.  [chat_history] is in
    chronological order, oldest message first. *)
Definition last_user_message (self : BaseKani) : option ChatMessage :=
  head (filter (fun m => role m = USER) (chat_history self)).

(** The lookup as the specification words it: the most recent message of
    the user role. *)
Definition most_recent_user_message (history : list ChatMessage)
  : option ChatMessage :=
  last (filter (fun m => role m = USER) history).

(** *** [BaseKani.set_state]

    The context manager around [body], the block of the [with] statement.
    The [finally] clause runs when the body returns or raises; while the
    body is suspended it has not run. *)
Definition set_state {A} (st : RunState) (body : M BaseKani A)
  : M BaseKani A := fun self =>
  let old_state := state self in
  let self := with_state st self in
  let self := dispatch (KaniStateChange (id self) (state self)) self in
  match body self with
  | (Blocked, self) => (Blocked, self)
  | (r, self) =>
      if decide (state self ≠ ERRORED) then
        let self := with_state old_state self in
        (r, dispatch (KaniStateChange (id self) (state self)) self)
      else (r, self)
  end.

(** One half of a scoped transition on its own: assign [st], then publish
    the state change.  Used to state what [set_state] does on entry and on
    restoration. *)
Definition transition (st : RunState) (self : BaseKani) : BaseKani :=
  dispatch (KaniStateChange (id self) st) (with_state st self).

(** The node after a [WAITING] scope whose body left it alone: back in its
    state, two state changes published. *)
Definition waited (self : BaseKani) : BaseKani :=
  transition (state self) (transition WAITING self).

(** [BrowsingMixin.blocked], the one place that assigns [ERRORED]. *)
Definition blocked : M BaseKani string := fun self =>
  let self := with_state ERRORED self in
  let self := dispatch (KaniStateChange (id self) (state self)) self in
  (Ret "The block has been noted. Don't use this site for future queries.",
   self).

End BaseKani.

(** ** Delegation, [kanpai/mixins/delegate_and_wait.py] *)

Module DelegateWaitMixin.
Import BaseKani.

(** *** [rapidfuzz.fuzz.ratio]

    The library's ratio is the normalised Indel similarity in percent:
    with [dist = len1 + len2 - 2 * lcs], it is [100 * (1 - dist / (len1 +
    len2))], [100] for two empty strings and [0] when an argument is
    [None].  It is a rational here; [delegate] is stated for any ratio
    function and this one serves for concrete runs. *)
Fixpoint lcs (a b : string) : nat :=
  match a with
  | EmptyString => 0
  | String x a' =>
      (fix inner (b : string) : nat :=
         match b with
         | EmptyString => 0
         | String y b' =>
             if decide (x = y) then S (lcs a' b')
             else Nat.max (lcs a' b) (inner b')
         end) b
  end.

Definition fuzz_ratio (s1 : string) (s2 : option string) : Q :=
  match s2 with
  | None => 0%Q
  | Some s2 =>
      let maximum := String.length s1 + String.length s2 in
      let dist := maximum - 2 * lcs s1 s2 in
      if decide (maximum = 0) then 100%Q
      else (100 * (1 - (Z.of_nat dist # Pos.of_nat maximum)))%Q
  end.

(** *** The helpers' units of work *)

(** What running a helper on its instructions comes to: [full_round]
    followed by [cleanup()].  It yields its messages and ends at some time,
    raises at some time, or never ends. *)
Inductive Round :=
| Yielded (at_time : nat) (msgs : list ChatMessage)
| Failed (at_time : nat) (e : exn)
| Unfinished.

(** The state of a task once the event loop has run it as far as it goes. *)
Inductive TaskOutcome :=
| TaskDone (at_time : nat) (result : string * string)
| TaskRaised (at_time : nat) (e : exn)
| TaskPending.

(** [msg.role == ChatRole.ASSISTANT and msg.content]: an empty content is
    falsy. *)
Definition assistant_text (msg : ChatMessage) : option string :=
  match role msg, content msg with
  | ASSISTANT, Some text => if decide (text = "") then None else Some text
  | _, _ => None
  end.

(** The block format of [wait], [f"{helper_name}:\n{result}"]. *)
Definition block (helper_name result : string) : string :=
  helper_name +:+ ":" +:+ LF +:+ result.

(** ["\n\n=====\n\n"]. *)
Definition separator : string := LF +:+ LF +:+ "=====" +:+ LF +:+ LF.

Inductive ReturnWhen := FIRST_COMPLETED | ALL_COMPLETED.

Section Delegation.

(** Python's [repr] on strings. *)
Variable repr : string → string.
(** [fuzz.ratio]. *)
Variable ratio : string → option string → Q.
(** The abstract method [create_delegate_kani] of the subclass. *)
Variable create_delegate_kani : M BaseKani Helper.
(** The helpers' runs, as the event loop will play them. *)
Variable full_round : Helper → string → Round.

(** The closure [_task] of [delegate]. *)
Definition _task (future : Future) : TaskOutcome :=
  let helper := fut_helper future in
  match full_round helper (fut_instructions future) with
  | Yielded t msgs =>
      let result := omap assistant_text msgs in
      TaskDone t (String.concat LF result, helper_name helper)
  | Failed t e => TaskRaised t e
  | Unfinished => TaskPending
  end.

Definition finished (future : Future) : bool :=
  match _task future with
  | TaskDone _ _ | TaskRaised _ _ => true
  | TaskPending => false
  end.

Definition finished_by (t : nat) (future : Future) : bool :=
  match _task future with
  | TaskDone t' _ | TaskRaised t' _ => bool_decide (t' ≤ t)%nat
  | TaskPending => false
  end.

(** [future.result()] on a task. *)
Definition future_result {S} (future : Future) : M S (string * string) :=
  match _task future with
  | TaskDone _ r => mret r
  | TaskRaised _ e => raise e
  | TaskPending => raise InvalidStateError
  end.

(** [await future]. *)
Definition await {S} (future : Future) : M S (string * string) :=
  match _task future with
  | TaskDone _ r => mret r
  | TaskRaised _ e => raise e
  | TaskPending => fun s => (Blocked, s)
  end.

(** [await asyncio.wait(fs, return_when=...)], first component of the
    result.  An empty [fs] raises [ValueError].  Otherwise the call resumes
    once one, or every, task of [fs] has finished, and stays suspended if
    that never happens.  [done] is the set of finished tasks it then
    returns, in the order Python iterates and pops that set. *)
Definition asyncio_wait {S} (fs : list Future) (return_when : ReturnWhen)
  (done : list Future) : M S (list Future) :=
  if decide (fs = []) then raise (ValueError "Set of Tasks/Futures is empty.")
  else
    let resumes :=
      match return_when with
      | FIRST_COMPLETED => existsb finished fs
      | ALL_COMPLETED => forallb finished fs
      end in
    if resumes then mret done else fun s => (Blocked, s).

(** The [done] sets [asyncio.wait] can return on [fs].  With
    [ALL_COMPLETED] it is all of [fs], in some order; with
    [FIRST_COMPLETED] it is the tasks of [fs] finished when the caller
    resumes, at least one, in some order. *)
Definition done_set (fs : list Future) (return_when : ReturnWhen)
  (done : list Future) : Prop :=
  match return_when with
  | ALL_COMPLETED => done ≡ₚ fs
  | FIRST_COMPLETED =>
      done ≠ [] ∧ NoDup done ∧
      ∃ t, ∀ f, f ∈ done ↔ f ∈ fs ∧ finished_by t f = true
  end.

(** [self.helper_futures.values()]. *)
Definition values (self : BaseKani) : list Future :=
  (map_to_list (helper_futures self)).*2.

(** [self.helper_futures.pop(key)]. *)
Definition pop (key : string) : M BaseKani Future := fun self =>
  match helper_futures self !! key with
  | Some future =>
      (Ret future, with_helper_futures (delete key (helper_futures self)) self)
  | None => (Raise (KeyError key), self)
  end.

(** The loop guard of [delegate]:
    [self.last_user_message and fuzz.ratio(...) > 80]. *)
Definition near_duplicate (instructions : string) (self : BaseKani) : bool :=
  match last_user_message self with
  | Some m =>
      if Qlt_le_dec 80 (ratio instructions (content m)) then true else false
  | None => false
  end.

Definition guidance : string :=
  "You shouldn't delegate the entire task to a helper. Try breaking it up"
  +:+ " into smaller steps and call this again.".

Definition busy (who : string) : string :=
  repr who
  +:+ " is currently busy. You can leave `who` empty to find a new"
  +:+ " available helper or wait on " +:+ repr who +:+ " and retry.".

(** [who and who in self.helpers]: the helper to reuse, if any.  [None] and
    the empty string are falsy. *)
Definition known_helper (who : option string) (self : BaseKani)
  : option (string * Helper) :=
  match who with
  | Some who =>
      if decide (who = "") then None
      else h ← helpers self !! who; Some (who, h)
  | None => None
  end.

(** [DelegateWaitMixin.delegate].  The early returns of the helper lookup
    are the left injection. *)
Definition delegate (instructions : string) (who : option string)
  : M BaseKani string :=
  self ← get;
  if near_duplicate instructions self then mret guidance
  else
    found ← match known_helper who self with
            | Some (who, helper) =>
                if decide (is_Some (helper_futures self !! who))
                then mret (inl (busy who))
                else mret (inr helper)
            | None =>
                helper ← create_delegate_kani;
                modify (fun self =>
                  with_helpers (<[helper_name helper := helper]> (helpers self))
                               self);;
                mret (inr helper)
            end;
    match found with
    | inl refusal => mret refusal
    | inr helper =>
        modify (fun self =>
          with_helper_futures
            (<[helper_name helper := mkFuture helper instructions]>
               (helper_futures self)) self);;
        mret (repr (helper_name helper) +:+ " is helping you with this request.")
    end.

Definition usage : string :=
  "The " +:+ DQ +:+ "until" +:+ DQ
  +:+ " param must be the name of a running helper, " +:+ DQ +:+ "next" +:+ DQ
  +:+ ", or " +:+ DQ +:+ "all" +:+ DQ +:+ ".".

(** The [for future in done] loop of [wait]. *)
Fixpoint collect {S} (done : list Future) : M S (list string) :=
  match done with
  | [] => mret []
  | future :: rest =>
      '(result, helper_name) ← future_result future;
      results ← collect rest;
      mret (block helper_name result :: results)
  end.

(** A task that ended with a result, and the block [wait] makes of it. *)
Definition block_of (f : Future) (b : string) : Prop :=
  ∃ t text, _task f = TaskDone t (text, helper_name (fut_helper f))
            ∧ b = block (helper_name (fut_helper f)) text.

(** [DelegateWaitMixin.wait]; [done] is what [asyncio.wait] answers if the
    call reaches it. *)
Definition wait (until : string) (done : list Future) : M BaseKani string :=
  self ← get;
  if bool_decide (helper_futures self !! until = None)
     && bool_decide (until ∉ ["next"; "all"])
  then mret usage
  else if decide (until = "next") then
    done ← set_state WAITING (asyncio_wait (values self) FIRST_COMPLETED done);
    match done with
    | [] => raise (KeyError "pop from an empty set")
    | future :: _ =>
        '(result, helper_name) ← future_result future;
        pop helper_name;;
        mret (block helper_name result)
    end
  else if decide (until = "all") then
    done ← set_state WAITING (asyncio_wait (values self) ALL_COMPLETED done);
    results ← collect done;
    modify (with_helper_futures ∅);;
    mret (String.concat separator results)
  else
    future ← pop until;
    '(result, _) ← set_state WAITING (await future);
    mret (block until result).

End Delegation.

(** The shape [delegate] gives the two dictionaries: a helper and its task
    are stored under [helper.name], and a name with pending work is the
    name of a helper. *)
Definition consistent (self : BaseKani) : Prop :=
  (∀ k h, helpers self !! k = Some h → helper_name h = k)
  ∧ (∀ k f, helper_futures self !! k = Some f →
            helper_name (fut_helper f) = k)
  ∧ (∀ k f, helper_futures self !! k = Some f →
            is_Some (helpers self !! k)).

(** [final] has the helpers of [self] and no pending work that [self] did
    not have. *)
Definition same_maps (self final : BaseKani) : Prop :=
  helpers final = helpers self
  ∧ helper_futures final ⊆ helper_futures self.

End DelegateWaitMixin.

(** ** More of the application root, [kanpai/app.py] *)

Module Resources.
Import App.

Definition with_playwright (p : option string) (app : Kanpai) : Kanpai :=
  {| event_queue := event_queue app; dispatch_task := dispatch_task app;
     playwright := p; browser := browser app;
     release_log := release_log app |}.

Definition with_browser (b : option string) (app : Kanpai) : Kanpai :=
  {| event_queue := event_queue app; dispatch_task := dispatch_task app;
     playwright := playwright app; browser := b;
     release_log := release_log app |}.

(** An awaited external call: its outcome, the state untouched. *)
Definition external {S A} (o : outcome A) : M S A := fun s => (o, s).

Section GetBrowser.

(** [await async_playwright().start()]. *)
Variable start : outcome string.
(** [await self.playwright.chromium.launch(...)] with the caller's keyword
    arguments, on the playwright handle it is called on. *)
Variable launch : string → outcome string.

(** [Kanpai.get_browser]; it returns [self.browser]. *)
Definition get_browser : M Kanpai (option string) :=
  app ← get;
  (if playwright app is None
   then p ← external start; modify (with_playwright (Some p))
   else mret tt);;
  app ← get;
  (if browser app is None
   then match playwright app with
        | Some p => b ← external (launch p); modify (with_browser (Some b))
        | None => raise (ExternalError "'NoneType' has no attribute 'chromium'")
        end
   else mret tt);;
  app ← get;
  mret (browser app).

End GetBrowser.

End Resources.

(** ** More of the agent node, [kanpai/base_kani.py] *)

Module Rounds.
Import BaseKani.

Definition with_chat_history (h : list ChatMessage) (self : BaseKani)
  : BaseKani :=
  {| app := app self; id := id self; name := name self; depth := depth self;
     state := state self; chat_history := h;
     helpers := helpers self; helper_futures := helper_futures self |}.

(** [BaseKani.chat_round]: the round of the base class inside a [RUNNING]
    scope. *)
Definition chat_round {A} (super_chat_round : M BaseKani A) : M BaseKani A :=
  set_state RUNNING super_chat_round.

(** [with] statements nested outermost first around [body]. *)
Fixpoint scopes {A} (sts : list RunState) (body : M BaseKani A)
  : M BaseKani A :=
  match sts with
  | [] => body
  | st :: inner => set_state st (scopes inner body)
  end.

(** A node taken through the transitions to [sts], one after the other. *)
Definition through (sts : list RunState) (self : BaseKani) : BaseKani :=
  foldl (fun self st => transition st self) self sts.

(** The states restored on the way out of the scopes [sts] entered from the
    state [old], innermost scope first: each scope puts back the state of
    the scope around it, the outermost puts back [old]. *)
Definition restored (old : RunState) (sts : list RunState) : list RunState :=
  reverse (removelast (old :: sts)).

(** [BaseKani.add_to_history]: the base class stores the message, then the
    node publishes it. *)
Definition add_to_history
    (super_add_to_history : ChatMessage → M BaseKani unit)
    (message : ChatMessage) : M BaseKani unit :=
  super_add_to_history message;;
  self ← get;
  modify (dispatch (KaniMessage (id self) message)).

(** [kani.Kani.add_to_history]: [self.chat_history.append(message)]. *)
Definition kani_add_to_history (message : ChatMessage) : M BaseKani unit :=
  modify (fun self =>
    with_chat_history (chat_history self ++ [message]) self).

End Rounds.

(** ** Sequences of delegation calls *)

Module Calls.
Import BaseKani DelegateWaitMixin.

(** The two functions the model can call on a delegating node; [done] is
    the answer of [asyncio.wait] for that call. *)
Inductive Call :=
| Delegate (instructions : string) (who : option string)
| Wait (until : string) (done : list Future).

Section Calls.

Variable repr : string → string.
Variable ratio : string → option string → Q.
Variable create_delegate_kani : M BaseKani Helper.
Variable full_round : Helper → string → Round.

Definition call (c : Call) : M BaseKani string :=
  match c with
  | Delegate instructions who =>
      delegate repr ratio create_delegate_kani instructions who
  | Wait until done => wait full_round until done
  end.

(** The node after the calls [cs], one after the other, whatever each
    returned or raised. *)
Definition after_calls (cs : list Call) (self : BaseKani) : BaseKani :=
  foldl (fun self c => (call c self).2) self cs.

End Calls.

End Calls.

(** ** Browsing nodes, [kanpai/mixins/browsing.py] *)

Module BrowsingMixin.
Import BaseKani.

(** A [BrowsingMixin] node: the node, its current page, and the pages it has
    called [close()] on, oldest first (the state of the external pages). *)
Record BrowsingKani := mkBrowsingKani {
  node : BaseKani;
  page : option string;
  closed_pages : list string
}.

Definition with_node (n : BaseKani) (self : BrowsingKani) : BrowsingKani :=
  {| node := n; page := page self; closed_pages := closed_pages self |}.

Definition with_page (p : option string) (self : BrowsingKani)
  : BrowsingKani :=
  {| node := node self; page := p; closed_pages := closed_pages self |}.

(** A method of [self.app], called from the node. *)
Definition on_app {A} (m : M App.Kanpai A) : M BrowsingKani A := fun self =>
  let '(r, a) := m (app (node self)) in
  (r, with_node (with_app a (node self)) self).

Section Pages.

Variable start : outcome string.
Variable launch : string → outcome string.
(** [await context.new_page()] on a browser. *)
Variable new_page : string → outcome string.
(** Whether [await page.close()] raises on a page. *)
Variable close_fails : string → bool.

(** [BrowsingMixin.get_page]. *)
Definition get_page (create : bool) : M BrowsingKani (option string) :=
  self ← get;
  (if bool_decide (page self = None) && create
   then context ← on_app (Resources.get_browser start launch);
        match context with
        | Some browser =>
            p ← Resources.external (new_page browser);
            modify (with_page (Some p))
        | None =>
            raise (ExternalError "'NoneType' has no attribute 'new_page'")
        end
   else mret tt);;
  self ← get;
  mret (page self).

(** [await self.page.close()]. *)
Definition close_page (p : string) : M BrowsingKani unit := fun self =>
  let self :=
    {| node := node self; page := page self;
       closed_pages := closed_pages self ++ [p] |} in
  if close_fails p then (Raise (ExternalError "close failed"), self)
  else (Ret tt, self).

(** [BrowsingMixin.cleanup]; [super().cleanup()] is the no-op of
    [BaseKani]. *)
Definition cleanup : M BrowsingKani unit :=
  mret tt;;
  self ← get;
  match page self with
  | Some p => close_page p;; modify (with_page None)
  | None => mret tt
  end.

End Pages.

End BrowsingMixin.

(** ** Article search, [redel/functions/fanoutqa.py] *)

Module FanOutQAMixin.

(** An engine as [search] uses it. *)
Record Engine := mkEngine {
  max_context_size : nat;
  message_len : ChatMessage → nat
}.

(** A search result of [fanoutqa.wiki_search]. *)
Record Article := mkArticle {
  title : string;
  pageid : nat;
  revid : nat
}.

(** The custom event [ArticleRetrieved]. *)
Record ArticleRetrieved := mkArticleRetrieved {
  ev_id : string;
  article_title : string;
  article_pageid : nat;
  article_revid : nat
}.

(** The node as [search] sees it: its engine, the application's long
    engine, the events it has dispatched, and its history. *)
Record Kani := mkKani {
  id : string;
  engine : Engine;
  long_engine : Engine;
  dispatched : list ArticleRetrieved;
  chat_history : list ChatMessage
}.

Definition with_engine (e : Engine) (self : Kani) : Kani :=
  {| id := id self; engine := e; long_engine := long_engine self;
     dispatched := dispatched self; chat_history := chat_history self |}.

Definition dispatch (ev : ArticleRetrieved) (self : Kani) : Kani :=
  {| id := id self; engine := engine self; long_engine := long_engine self;
     dispatched := dispatched self ++ [ev];
     chat_history := chat_history self |}.

(** [FanOutQAMixin.max_search_tokens]. *)
Definition max_search_tokens (self : Kani) : nat :=
  max_context_size (engine self) / 2.

(** [ChatMessage.user]. *)
Definition user (text : string) : ChatMessage :=
  {| role := USER; content := Some text; msg_name := None;
     function_call := None |}.

(** The template [f"<document>\n<title>{title}</title>\n{{}}</document>"]. *)
Definition prompt (article_title : string) : string :=
  "<document>" +:+ LF +:+ "<title>" +:+ article_title +:+ "</title>" +:+ LF
  +:+ "{}</document>".

Definition fragment (doc : string) : string :=
  "<fragment>" +:+ LF +:+ doc +:+ LF +:+ "</fragment>" +:+ LF.

Definition no_page (titles : list string) : string :=
  "No page with that title exists. Try searching for one of these similar"
  +:+ " articles instead:" +:+ LF
  +:+ String.concat LF ((fun t => "- " +:+ t) <$> titles).

Section Search.

(** [str.strip], [str.lower] and [str.format] with one argument. *)
Variable strip : string → string.
Variable lower : string → string.
Variable format : string → string → string.
(** [fanoutqa.wiki_search] and [fanoutqa.wiki_content]. *)
Variable wiki_search : string → list Article.
Variable wiki_content : Article → string.
(** The contents of [Corpus([article], doc_len=1024).best(query)], best
    first. *)
Variable best : Article → option string → list string.
(** [Kani.message_token_len], which goes by the node's current engine. *)
Variable message_token_len : Engine → ChatMessage → nat.
(** [last_user_message] of the node's base class. *)
Variable last_user_message : list ChatMessage → option ChatMessage.

(** The [for match in matches] loop: the first match whose title is the
    query up to case. *)
Definition found (query : string) (matches : list Article) : option Article :=
  head (filter (fun m => lower (title m) = lower query) matches).

(** The [for doc in corpus.best(user_query)] loop, from the fragments
    gathered so far. *)
Fixpoint retrieve (self : Kani) (template : string) (docs : list string)
    (retrieved_docs : list string) : list string :=
  match docs with
  | [] => retrieved_docs
  | doc :: rest =>
      let formatted := fragment doc in
      let content :=
        format template (String.concat "" retrieved_docs +:+ formatted) in
      let doc_len := message_len (engine self) (user content) in
      if decide (max_search_tokens self < doc_len)%nat then retrieved_docs
      else retrieve self template rest (retrieved_docs ++ [formatted])
  end.

(** The budget check of the fragment loop, on the first documents [docs]
    of the ranking. *)
Definition fits (self : Kani) (template : string) (docs : list string)
  : Prop :=
  (message_len (engine self)
     (user (format template (String.concat "" (fragment <$> docs))))
   ≤ max_search_tokens self)%nat.

(** The document [search] builds from the whole article. *)
Definition full_content (article : Article) : string :=
  format (prompt (title article))
    ("<content>" +:+ LF +:+ wiki_content article +:+ LF
     +:+ "</content>" +:+ LF).

(** The event [search] dispatches for an article. *)
Definition retrieved (self : Kani) (article : Article) : ArticleRetrieved :=
  {| ev_id := id self; article_title := title article;
     article_pageid := pageid article; article_revid := revid article |}.

(** [FanOutQAMixin.search]. *)
Definition search (query : string) : M Kani string :=
  let query := strip query in
  let matches := wiki_search query in
  match found query matches with
  | None => mret (no_page (title <$> matches))
  | Some found_article =>
      let template := prompt (title found_article) in
      self ← get;
      modify (dispatch {| ev_id := id self;
                          article_title := title found_article;
                          article_pageid := pageid found_article;
                          article_revid := revid found_article |});;
      let full_content :=
        format template
          ("<content>" +:+ LF +:+ wiki_content found_article +:+ LF
           +:+ "</content>" +:+ LF) in
      self ← get;
      if decide (message_token_len (engine self) (user full_content)
                 ≤ max_search_tokens self)%nat
      then mret full_content
      else
        modify (fun self => with_engine (long_engine self) self);;
        self ← get;
        if decide (message_token_len (engine self) (user full_content)
                   ≤ max_search_tokens self)%nat
        then mret full_content
        else
          match last_user_message (chat_history self) with
          | None =>
              raise (ExternalError "'NoneType' has no attribute 'text'")
          | Some m =>
              let user_query := content m in
              let retrieved_docs :=
                retrieve self template (best found_article user_query) [] in
              mret (format template (String.concat "" retrieved_docs))
          end
  end.

End Search.

End FanOutQAMixin.

(** ** Sample inputs

    Concrete nodes, histories and schedules on which the properties below
    are exercised. *)

Module Samples.
Import BaseKani DelegateWaitMixin.

(** [ChatMessage.user] and [ChatMessage.assistant]. *)
Definition user (text : string) : ChatMessage :=
  {| role := USER; content := Some text; msg_name := None;
     function_call := None |}.
Definition assistant (text : string) : ChatMessage :=
  {| role := ASSISTANT; content := Some text; msg_name := None;
     function_call := None |}.

(** A root node as [BaseKani.__init__] leaves it, with the given history. *)
Definition root (history : list ChatMessage) : BaseKani :=
  {| app := App.new; id := "root"; name := "root"; depth := 0;
     state := STOPPED; chat_history := history;
     helpers := ∅; helper_futures := ∅ |}.

(** A history with two user turns. *)
Definition two_turns : list ChatMessage :=
  [user "plan a trip to Kyoto"; assistant "Here is a plan.";
   user "now book the hotel"].

(** A completion whose function call carries the stray prefix, and a
    backend that returns it. *)
Definition borked : Completion :=
  {| message :=
       {| role := ASSISTANT; content := None; msg_name := None;
          function_call :=
            Some {| fc_name := "functions.search";
                    fc_arguments := "{}" |} |};
     prompt_tokens := Some 120; completion_tokens := Some 7 |}.
Definition backend : M BaseKani Completion := mret borked.

(** Two events to publish. *)
Definition spawned : Event := KaniSpawn "root" None [] [].
Definition running : Event := KaniStateChange "root" RUNNING.

(** [repr] on a string without quotes or escapes. *)
Definition quote (s : string) : string := "'" +:+ s +:+ "'".

(** A subclass whose [create_delegate_kani] spawns the child ["helper-1"]:
    the constructor publishes the spawn through [on_kani_creation]. *)
Definition fresh : Helper :=
  {| helper_id := "helper-1"; helper_name := "helper-1"; helper_depth := 1 |}.
Definition create : M BaseKani Helper := fun self =>
  (Ret fresh, dispatch (KaniSpawn "helper-1" (Some (id self)) [] []) self).

(** Two helpers at work: ann ends at time 1, bob at time 2. *)
Definition ann : Helper :=
  {| helper_id := "ann"; helper_name := "ann"; helper_depth := 1 |}.
Definition bob : Helper :=
  {| helper_id := "bob"; helper_name := "bob"; helper_depth := 1 |}.
Definition flights : Future :=
  {| fut_helper := ann; fut_instructions := "find flights" |}.
Definition hotels : Future :=
  {| fut_helper := bob; fut_instructions := "find hotels" |}.
Definition rounds (helper : Helper) (instructions : string) : Round :=
  if decide (helper_name helper = "ann")
  then Yielded 1 [assistant "two flights"]
  else Yielded 2 [assistant "three hotels"].

(** A running node that asked ann and bob and was itself asked to find a
    hotel. *)
Definition delegating : BaseKani :=
  {| app := App.new; id := "root"; name := "root"; depth := 0;
     state := RUNNING; chat_history := [user "find hotel"];
     helpers := {[ "ann" := ann; "bob" := bob ]};
     helper_futures := {[ "ann" := flights; "bob" := hotels ]} |}.

(** The engine handle raises on [close()], nothing else does. *)
Definition engine_fails (r : App.Release) : bool :=
  bool_decide (r = App.CloseEngine).

(** An application whose browser was launched. *)
Definition browsing : App.Kanpai :=
  {| App.event_queue := []; App.dispatch_task := App.TaskRunning;
     App.playwright := Some "playwright"; App.browser := Some "chromium";
     App.release_log := [] |}.

End Samples.

(** ** More sample inputs *)

Module MoreSamples.
Import BaseKani DelegateWaitMixin.

(** A running node whose helper ann is known and idle. *)
Definition idle : BaseKani :=
  {| app := App.new; id := "root"; name := "root"; depth := 0;
     state := RUNNING; chat_history := [Samples.user "find hotel"];
     helpers := {[ "ann" := Samples.ann ]}; helper_futures := ∅ |}.

(** A node that was blocked by a page. *)
Definition errored : BaseKani :=
  {| app := App.new; id := "root"; name := "root"; depth := 0;
     state := ERRORED; chat_history := [];
     helpers := ∅; helper_futures := ∅ |}.

(** ann's run raises at time 1, bob's ends at time 2. *)
Definition failing_rounds (helper : Helper) (instructions : string) : Round :=
  if decide (helper_name helper = "ann")
  then Failed 1 (ExternalError "rate limit")
  else Yielded 2 [Samples.assistant "three hotels"].

(** Playwright starts; the browser launches, or fails to. *)
Definition started : outcome string := Ret "playwright".
Definition launched (p : string) : outcome string := Ret "chromium".
Definition launch_fails (p : string) : outcome string :=
  Raise (ExternalError "no display").

(** No release fails. *)
Definition all_fine (r : App.Release) : bool := false.

(** A cancelled application with one event still queued. *)
Definition cancelled : App.Kanpai :=
  {| App.event_queue := [Samples.spawned];
     App.dispatch_task := App.TaskCancelled;
     App.playwright := None; App.browser := None; App.release_log := [] |}.

(** Browsing nodes on a launched browser, with and without a page. *)
Definition on_page : BrowsingMixin.BrowsingKani :=
  {| BrowsingMixin.node := with_app Samples.browsing (Samples.root []);
     BrowsingMixin.page := Some "tab-1";
     BrowsingMixin.closed_pages := [] |}.
Definition off_page : BrowsingMixin.BrowsingKani :=
  {| BrowsingMixin.node := with_app Samples.browsing (Samples.root []);
     BrowsingMixin.page := None;
     BrowsingMixin.closed_pages := [] |}.
Definition opened (browser : string) : outcome string := Ret "tab-2".
Definition closes (p : string) : bool := false.
Definition stuck (p : string) : bool := true.

(** Engines that count characters, with budgets of 80 and 150. *)
Definition count (m : ChatMessage) : nat :=
  String.length (default "" (content m)).
Definition short : FanOutQAMixin.Engine :=
  {| FanOutQAMixin.max_context_size := 160;
     FanOutQAMixin.message_len := count |}.
Definition long : FanOutQAMixin.Engine :=
  {| FanOutQAMixin.max_context_size := 300;
     FanOutQAMixin.message_len := count |}.
Definition token_len (e : FanOutQAMixin.Engine) (m : ChatMessage) : nat :=
  FanOutQAMixin.message_len e m.

(** Three articles: one that fits the short engine, one that fits the long
    engine only, one that fits neither. *)
Definition kyoto : FanOutQAMixin.Article :=
  {| FanOutQAMixin.title := "Kyoto"; FanOutQAMixin.pageid := 1;
     FanOutQAMixin.revid := 7 |}.
Definition osaka : FanOutQAMixin.Article :=
  {| FanOutQAMixin.title := "Osaka"; FanOutQAMixin.pageid := 2;
     FanOutQAMixin.revid := 8 |}.
Definition tokyo : FanOutQAMixin.Article :=
  {| FanOutQAMixin.title := "Tokyo"; FanOutQAMixin.pageid := 3;
     FanOutQAMixin.revid := 9 |}.
Definition wiki (query : string) : list FanOutQAMixin.Article :=
  [kyoto; osaka; tokyo].
Definition text_of (a : FanOutQAMixin.Article) : string :=
  if decide (FanOutQAMixin.title a = "Kyoto") then "old capital"
  else if decide (FanOutQAMixin.title a = "Osaka")
  then String.concat "" (replicate 4 "0123456789")
  else String.concat "" (replicate 9 "0123456789").
Definition ranking (a : FanOutQAMixin.Article) (query : option string)
  : list string :=
  ["temples"; "gardens"; "castles"; "markets"].

(** Stand-ins for [str.strip], [str.lower] and [str.format]. *)
Definition same (s : string) : string := s.
Definition fill (template x : string) : string := template +:+ x.

(** A lookup of the user message, as [kanpai]'s node has it. *)
Definition first_user (history : list ChatMessage) : option ChatMessage :=
  head (filter (fun m => role m = USER) history).

(** A node on the short engine, with the given history. *)
Definition searcher (history : list ChatMessage) : FanOutQAMixin.Kani :=
  {| FanOutQAMixin.id := "root"; FanOutQAMixin.engine := short;
     FanOutQAMixin.long_engine := long; FanOutQAMixin.dispatched := [];
     FanOutQAMixin.chat_history := history |}.

End MoreSamples.

(** * Properties *)

Import BaseKani DelegateWaitMixin.

(** ** Unfolding computations *)

Ltac run_monad :=
  unfold mbind, M_bind, mret, M_ret, get, modify, raise in *; simpl in *.

Lemma bind_ret {S A B} (m : M S A) (f : A → M S B) s a s' :
  m s = (Ret a, s') → (m ≫= f) s = f a s'.
Proof. intros H. unfold mbind, M_bind. by rewrite H. Qed.

Lemma bind_raise {S A B} (m : M S A) (f : A → M S B) s e s' :
  m s = (Raise e, s') → (m ≫= f) s = (Raise e, s').
Proof. intros H. unfold mbind, M_bind. by rewrite H. Qed.

Lemma bind_blocked {S A B} (m : M S A) (f : A → M S B) s s' :
  m s = (Blocked, s') → (m ≫= f) s = (Blocked, s').
Proof. intros H. unfold mbind, M_bind. by rewrite H. Qed.

(** ** Scoped transitions *)

Section ScopedTransitions.

Context {A : Type}.
Implicit Types (body : M BaseKani A) (self : BaseKani) (st : RunState).

Lemma transition_state st self : state (transition st self) = st.
Proof. reflexivity. Qed.

Lemma transition_events st self :
  App.event_queue (app (transition st self))
  = (App.event_queue (app self) ++ [KaniStateChange (id self) st])%list.
Proof. reflexivity. Qed.

Lemma transition_id st self : id (transition st self) = id self.
Proof. reflexivity. Qed.

Lemma transition_maps st self :
  helpers (transition st self) = helpers self
  ∧ helper_futures (transition st self) = helper_futures self
  ∧ chat_history (transition st self) = chat_history self.
Proof. done. Qed.

(** The body is suspended for good: the scope is entered and never left. *)
Lemma set_state_blocked st body self after :
  body (transition st self) = (Blocked, after) →
  set_state st body self = (Blocked, after).
Proof. unfold set_state, transition. simpl. by intros ->. Qed.

(** The body returns or raises and the node is not [ERRORED]: the state of
    before the scope is put back and published. *)
Lemma set_state_restores st body self r after :
  body (transition st self) = (r, after) →
  r ≠ Blocked →
  state after ≠ ERRORED →
  set_state st body self = (r, transition (state self) after).
Proof.
  unfold set_state, transition. simpl. intros -> Hr Hs.
  destruct r; try done; by rewrite decide_True.
Qed.

(** The body returns or raises with the node [ERRORED]: nothing is put
    back. *)
Lemma set_state_keeps_errored st body self r after :
  body (transition st self) = (r, after) →
  state after = ERRORED →
  set_state st body self = (r, after).
Proof.
  unfold set_state, transition. simpl. intros -> Hs.
  destruct r; try done; rewrite decide_False; auto.
Qed.

(** Whatever the body does, a scope that is left leaves the node in the
    state of before the scope, or [ERRORED]. *)
Lemma set_state_well_bracketed st body self r final :
  set_state st body self = (r, final) →
  r ≠ Blocked →
  state final = state self ∨ state final = ERRORED.
Proof.
  intros Hrun Hr.
  destruct (body (transition st self)) as [r' after] eqn:Hbody.
  assert (r' = Blocked ∨ r' ≠ Blocked) as [->|Hr']
    by (destruct r'; auto).
  - rewrite (set_state_blocked _ _ _ _ Hbody) in Hrun. congruence.
  - destruct (decide (state after = ERRORED)) as [He|He].
    + rewrite (set_state_keeps_errored _ _ _ _ _ Hbody He) in Hrun.
      right. congruence.
    + rewrite (set_state_restores _ _ _ _ _ Hbody Hr' He) in Hrun.
      left. by inversion Hrun.
Qed.

End ScopedTransitions.

(** C2.  A scoped transition [set_state st body] on a node [self]:
    - on entry the body starts from the node with the new state [st]
      applied and a state-change event for [st] appended to the queue;
    - when the body returns or raises (outcome [r], node [after]) and the
      node is not [ERRORED], the state of before the scope is restored and a
      second state-change event, for that state, is appended;
    - when the node is [ERRORED] at that point, the outcome and the node are
      passed on untouched: the state stays [ERRORED], no event is added;
    - scopes nest last-in first-out: with an inner scope [st2] around
      [inner], the inner exit restores [st] and the outer exit restores the
      state of before both, each with its event, in that order. *)
Theorem set_state_scoped {A} (st : RunState) (body : M BaseKani A)
    (self : BaseKani) :
  (state (transition st self) = st
   ∧ App.event_queue (app (transition st self))
     = (App.event_queue (app self) ++ [KaniStateChange (id self) st])%list)
  ∧ (∀ r after,
       body (transition st self) = (r, after) → r ≠ Blocked →
       (state after ≠ ERRORED →
        set_state st body self = (r, transition (state self) after)
        ∧ state (transition (state self) after) = state self
        ∧ App.event_queue (app (transition (state self) after))
          = (App.event_queue (app after)
             ++ [KaniStateChange (id after) (state self)])%list)
       ∧ (state after = ERRORED →
          set_state st body self = (r, after)))
  ∧ (∀ st2 (inner : M BaseKani A) r after,
       inner (transition st2 (transition st self)) = (r, after) →
       r ≠ Blocked → st ≠ ERRORED → state after ≠ ERRORED →
       set_state st (set_state st2 inner) self
       = (r, transition (state self) (transition st after))
       ∧ state (transition (state self) (transition st after)) = state self
       ∧ App.event_queue
           (app (transition (state self) (transition st after)))
         = (App.event_queue (app after)
            ++ [KaniStateChange (id after) st;
                KaniStateChange (id after) (state self)])%list).
Proof.
  split; [done|]. split.
  - intros r after Hbody Hr. split.
    + intros He. split; [by apply set_state_restores|done].
    + intros He. by apply set_state_keeps_errored.
  - intros st2 inner r after Hinner Hr Hst He. split.
    + apply set_state_restores; [|done|by rewrite transition_state].
      rewrite (set_state_restores _ _ _ _ _ Hinner Hr He).
      by rewrite transition_state.
    + split; [done|]. rewrite !transition_events, transition_id.
      by rewrite <- app_assoc.
Qed.

(** Witness of [set_state_scoped]: a stopped node runs, waits inside the
    run, and comes back through [RUNNING] to [STOPPED]. *)
Lemma set_state_scoped_witness :
  set_state RUNNING (set_state WAITING (mret tt)) (Samples.root [])
  = (Ret tt,
     transition STOPPED
       (transition RUNNING
          (transition WAITING (transition RUNNING (Samples.root [])))))
  ∧ App.event_queue
      (app (transition STOPPED
              (transition RUNNING
                 (transition WAITING
                    (transition RUNNING (Samples.root []))))))
    = [KaniStateChange "root" RUNNING; KaniStateChange "root" WAITING;
       KaniStateChange "root" RUNNING; KaniStateChange "root" STOPPED].
Proof.
  destruct (set_state_scoped RUNNING (mret tt) (Samples.root []))
    as (_ & _ & Hnest).
  destruct (Hnest WAITING (mret tt) (Ret tt)
              (transition WAITING (transition RUNNING (Samples.root []))))
    as (Hrun & _ & _); [reflexivity|discriminate|discriminate|discriminate|].
  split; [exact Hrun|reflexivity].
Defined.

(** ** The last user message *)

Lemma head_filter_Some {A} (P : A → Prop) `{∀ x, Decision (P x)}
    (l : list A) (x : A) :
  head (filter P l) = Some x
  ↔ ∃ before after, l = (before ++ x :: after)%list ∧ P x
                    ∧ Forall (fun y => ¬ P y) before.
Proof.
  induction l as [|y l IH]; simpl.
  - split; [done|]. intros (b & a & Hl & _). by destruct b.
  - rewrite filter_cons. destruct (decide (P y)) as [Hy|Hy]; simpl.
    + split.
      * intros [= ->]. by exists [], l.
      * intros (b & a & Hl & Hx & Hb). destruct b as [|z b]; simpl in Hl.
        -- congruence.
        -- inversion Hl; subst. by inversion Hb.
    + rewrite IH. split.
      * intros (b & a & -> & Hx & Hb). exists (y :: b), a. auto.
      * intros (b & a & Hl & Hx & Hb). destruct b as [|z b]; simpl in Hl.
        -- inversion Hl; subst. done.
        -- inversion Hl; subst. inversion Hb; subst. by exists b, a.
Qed.

(** The lookup returns the earliest message of the user role. *)
Lemma last_user_message_earliest self m :
  last_user_message self = Some m
  ↔ ∃ before after, chat_history self = (before ++ m :: after)%list
                    ∧ role m = USER
                    ∧ Forall (fun x => role x ≠ USER) before.
Proof.
  unfold last_user_message.
  apply (head_filter_Some (fun x => role x = USER)).
Qed.

(** The lookup returns [None] exactly when no message has the user role. *)
Lemma last_user_message_None self :
  last_user_message self = None
  ↔ Forall (fun m => role m ≠ USER) (chat_history self).
Proof.
  unfold last_user_message. rewrite head_None.
  induction (chat_history self) as [|y l IH]; [done|].
  rewrite filter_cons, Forall_cons.
  destruct (decide (role y = USER)); [|tauto].
  split; [done|]. intros [? _]. done.
Qed.

(** C3.  On a history with two user turns, [last_user_message] returns the
    first of them, not the most recent one. *)
Theorem last_user_message_two_turns :
  last_user_message (Samples.root Samples.two_turns)
  = Some (Samples.user "plan a trip to Kyoto")
  ∧ most_recent_user_message Samples.two_turns
    = Some (Samples.user "now book the hotel")
  ∧ last_user_message (Samples.root Samples.two_turns)
    ≠ most_recent_user_message Samples.two_turns.
Proof. split; [reflexivity|]. split; [reflexivity|discriminate]. Qed.

(** ** Completions *)

Lemma strip_Some p s rest : strip p s = Some rest ↔ s = p +:+ rest.
Proof.
  revert s. induction p as [|a p IH]; intros s; simpl.
  - change ("" +:+ rest) with rest. split; congruence.
  - change (String a p +:+ rest) with (String a (p +:+ rest)).
    destruct s as [|b s]; [done|].
    destruct (decide (a = b)) as [->|Hab].
    + rewrite IH. split; congruence.
    + split; [done|]. intros [= ? ?]. done.
Qed.

Lemma startswith_true s p : startswith s p = true ↔ ∃ rest, s = p +:+ rest.
Proof.
  unfold startswith. destruct (strip p s) as [r|] eqn:Hs.
  - apply strip_Some in Hs. split; eauto.
  - split; [done|]. intros [r Hr]. apply strip_Some in Hr. congruence.
Qed.

Lemma removeprefix_app p rest : removeprefix (p +:+ rest) p = rest.
Proof.
  unfold removeprefix.
  by rewrite (proj2 (strip_Some p (p +:+ rest) rest) eq_refl).
Qed.

(** C10.  When the backend returns a completion [c], [get_model_completion]
    returns a completion [c'] and publishes one token-usage event with the
    token counts of [c]: the queue of the application is the queue the
    backend call left, followed by that event, and the node is otherwise
    as the backend call left it.  [c'] has the content and the token
    counts of [c]; when the function call of [c] is named
    ["functions." ++ rest], that of [c'] is named [rest] and nothing else
    in the message is changed; when [c] has no function call, or one whose
    name does not start with ["functions."], [c'] is [c]. *)
Theorem get_model_completion_fixes_prefix
    (super_completion : M BaseKani Completion) (self after : BaseKani)
    (c : Completion) :
  super_completion self = (Ret c, after) →
  ∃ c' final,
    get_model_completion super_completion self = (Ret c', final)
    ∧ App.event_queue (app final)
      = (App.event_queue (app after)
         ++ [TokensUsed (id after) (prompt_tokens c)
                        (completion_tokens c)])%list
    ∧ with_app (app after) final = after
    ∧ content (message c') = content (message c)
    ∧ prompt_tokens c' = prompt_tokens c
    ∧ completion_tokens c' = completion_tokens c
    ∧ (∀ fc rest,
         function_call (message c) = Some fc →
         fc_name fc = "functions." +:+ rest →
         function_call (message c')
         = Some {| fc_name := rest; fc_arguments := fc_arguments fc |}
         ∧ role (message c') = role (message c)
         ∧ msg_name (message c') = msg_name (message c))
    ∧ ((∀ fc, function_call (message c) = Some fc →
              ∀ rest, fc_name fc ≠ "functions." +:+ rest) →
       c' = c).
Proof.
  intros Hsuper. unfold get_model_completion.
  rewrite (bind_ret _ _ _ _ _ Hsuper). run_monad.
  assert (with_app (app after)
            (dispatch (TokensUsed (id after) (prompt_tokens c)
                                  (completion_tokens c)) after)
          = after) as Hrest by (by destruct after).
  destruct (function_call (message c)) as [fc|] eqn:Hfc.
  - destruct (startswith (fc_name fc) "functions.") eqn:Hstart.
    + eexists _, _. split; [reflexivity|]. simpl. split_and!; try done.
      * intros fc' rest [= <-] Hname. rewrite Hname.
        by rewrite (removeprefix_app "functions." rest).
      * intros Hno. apply startswith_true in Hstart as [rest Hrest'].
        by destruct (Hno fc eq_refl rest).
    + exists c. eexists. split; [reflexivity|]. split_and!; try done.
      intros fc' rest [= <-] Hname.
      assert (startswith (fc_name fc) "functions." = true) as Ht
        by (apply startswith_true; eauto).
      congruence.
  - exists c. eexists. split; [reflexivity|]. split_and!; done.
Qed.

(** Witness of [get_model_completion_fixes_prefix]: the call
    ["functions.search"] comes back as ["search"]. *)
Lemma get_model_completion_fixes_prefix_witness :
  ∃ c' final,
    get_model_completion Samples.backend (Samples.root []) = (Ret c', final)
    ∧ App.event_queue (app final) = [TokensUsed "root" (Some 120) (Some 7)]
    ∧ function_call (message c')
      = Some {| fc_name := "search"; fc_arguments := "{}" |}
    ∧ prompt_tokens c' = Some 120 ∧ completion_tokens c' = Some 7.
Proof.
  destruct (get_model_completion_fixes_prefix Samples.backend
              (Samples.root []) (Samples.root []) Samples.borked)
    as (c' & final & Hrun & Hqueue & _ & _ & Hp & Hc & Hfix & _);
    [reflexivity|].
  exists c', final. split; [exact Hrun|]. split; [exact Hqueue|].
  destruct (Hfix {| fc_name := "functions.search"; fc_arguments := "{}" |}
              "search") as (Hfc & _); [reflexivity|reflexivity|].
  split; [exact Hfc|]. split; [exact Hp|exact Hc].
Defined.

(** ** The event bus *)

Section Bus.

Context {L : Type}.
Implicit Types (app : App.Kanpai) (obs : App.Observed L).

(** A schedule only moves events from the publishers to the queue and from
    the front of the queue to the loop, and the loop calls no listener. *)
Lemma run_conserves acts app obs :
  (App.taken (App.run acts (app, obs)).2
   ++ App.event_queue (App.run acts (app, obs)).1
   = App.taken obs ++ App.event_queue app ++ App.published acts)%list
  ∧ App.calls (App.run acts (app, obs)).2 = App.calls obs.
Proof.
  revert app obs. induction acts as [|a acts IH]; intros app obs.
  - simpl. by rewrite app_nil_r.
  - unfold App.run in *. simpl. destruct a as [e| |]; simpl.
    + destruct (IH (App.dispatch e app) obs) as [-> ->].
      split; [|done]. simpl. by rewrite <- !app_assoc.
    + unfold App._dispatch_task_turn.
      destruct (App.dispatch_task app); [|apply IH].
      destruct (App.event_queue app) as [|e q] eqn:Hq.
      * rewrite <- Hq. apply IH.
      * destruct (IH (App.with_event_queue q app)
                    (App.mkObserved (App.taken obs ++ [e])
                                    (App.calls obs ++ []))) as [-> ->].
        simpl. split; [by rewrite <- !app_assoc|by rewrite app_nil_r].
    + by destruct (IH (App.with_dispatch_task App.TaskCancelled app) obs)
        as [-> ->].
Qed.

(** As many turns as there are queued events empty the queue of a running
    loop, oldest event first. *)
Lemma run_drains app obs :
  App.dispatch_task app = App.TaskRunning →
  App.run (replicate (length (App.event_queue app)) App.LoopTurn) (app, obs)
  = (App.with_event_queue [] app,
     App.mkObserved (App.taken obs ++ App.event_queue app)%list
                    (App.calls obs)).
Proof.
  destruct app as [q t pw br lg]. simpl. intros ->.
  revert obs. induction q as [|e q IH]; intros [tk cs]; simpl.
  - unfold App.run. simpl. by rewrite app_nil_r.
  - unfold App.run in *. simpl. unfold App.with_event_queue. simpl.
    rewrite IH. simpl. by rewrite app_nil_r, <- app_assoc.
Qed.

(** A cancelled loop takes nothing more from the queue. *)
Lemma run_cancelled n app obs :
  App.dispatch_task app = App.TaskCancelled →
  App.run (replicate n App.LoopTurn) (app, obs) = (app, obs).
Proof.
  intros Hc. induction n as [|n IH]; [done|].
  unfold App.run in *. simpl. unfold App._dispatch_task_turn.
  by rewrite Hc.
Qed.

End Bus.

(** The loop calls no listener, under any schedule. *)
Lemma dispatch_loop_makes_no_call {L : Type} (acts : list App.Action) :
  App.calls (App.run acts (App.start (L:=L))).2 = [].
Proof.
  unfold App.start.
  by destruct (run_conserves (L:=L) acts App.new (App.mkObserved [] []))
    as [_ ->].
Qed.

(** C1, the queue.  Under every schedule of publications, loop turns and
    cancellation, the events the dispatch loop has taken followed by the
    events still queued are the published events in publication order, so
    events leave the queue first-in first-out; and a running loop that is
    given as many turns as there are queued events has taken every
    published event, in publication order, and left the queue empty. *)
Theorem dispatch_loop_fifo {L : Type} (acts : list App.Action) :
  let st := App.run acts (App.start (L:=L)) in
  (App.taken st.2 ++ App.event_queue st.1 = App.published acts)%list
  ∧ (App.dispatch_task st.1 = App.TaskRunning →
     let st' :=
       App.run (replicate (length (App.event_queue st.1)) App.LoopTurn) st in
     App.event_queue st'.1 = []
     ∧ App.taken st'.2 = App.published acts).
Proof.
  simpl. unfold App.start.
  destruct (run_conserves (L:=L) acts App.new (App.mkObserved [] []))
    as [Hq _]. simpl in Hq.
  destruct (App.run acts (App.new, App.mkObserved [] [])) as [app obs].
  simpl in *. split; [done|].
  intros Hrun. by rewrite (run_drains app obs Hrun).
Qed.

(** Witness of [dispatch_loop_fifo]: two events are published around a loop
    turn; two more turns leave the loop with both, in publication order. *)
Lemma dispatch_loop_fifo_witness :
  let st := App.run [App.Publish Samples.spawned; App.LoopTurn;
                     App.Publish Samples.running] (App.start (L:=nat)) in
  App.taken
    (App.run (replicate (length (App.event_queue st.1)) App.LoopTurn) st).2
  = [Samples.spawned; Samples.running].
Proof.
  destruct (dispatch_loop_fifo (L:=nat)
              [App.Publish Samples.spawned; App.LoopTurn;
               App.Publish Samples.running]) as [_ Hdrain].
  destruct (Hdrain eq_refl) as [_ Htaken]. exact Htaken.
Defined.

(** C1, counterexample.  One event is published and the loop takes its
    turn: the queue is empty, the event was taken, and a listener [0],
    taken as registered from the start, was owed one call by the
    specification's fan-out, yet no call was made. *)
Lemma dispatch_loop_calls_no_listener :
  let st := App.run [App.Publish Samples.spawned; App.LoopTurn]
                    (App.start (L:=nat)) in
  App.event_queue st.1 = []
  ∧ App.taken st.2 = [Samples.spawned]
  ∧ App.spec_deliveries [0] [Samples.spawned] = [(0, Samples.spawned)]
  ∧ App.calls st.2 ≠ App.spec_deliveries [0] [Samples.spawned].
Proof. split_and!; try reflexivity. discriminate. Qed.

(** ** Cleanup *)

Section Cleanup.

Variable fails : App.Release → bool.

Lemma release_ok r app :
  fails r = false →
  App.release fails r app = (Ret tt, App.log_release r app).
Proof. unfold App.release. by intros ->. Qed.

Lemma release_raises r app :
  fails r = true →
  App.release fails r app
  = (Raise (ExternalError "release failed"), App.log_release r app).
Proof. unfold App.release. by intros ->. Qed.

(** C8, as the code has it.  [close] cancels the dispatch task, which cannot
    fail, then makes the awaited releases in order: first engine, second
    engine, browser if launched, playwright if started.  It stops at the
    first release that raises: the releases up to and including that one
    are the only ones attempted, and the error reaches the caller at once.
    When no release raises, every owed release is attempted and [close]
    returns. *)
Theorem close_stops_at_first_failure (app : App.Kanpai) :
  let '(r, app') := App.close fails app in
  App.release_log app'
  = (App.release_log app
     ++ App.CancelDispatch :: App.until_failure fails (App.owed app))%list
  ∧ App.dispatch_task app' = App.TaskCancelled
  ∧ (r = Ret tt ↔ Forall (fun x => fails x = false) (App.owed app))
  ∧ (r = Ret tt →
     App.release_log app'
     = (App.release_log app ++ App.CancelDispatch :: App.owed app)%list)
  ∧ (r ≠ Ret tt → r = Raise (ExternalError "release failed")).
Proof.
  destruct app as [q t pw br lg].
  unfold App.close, App.owed, App.cancel_dispatch_task, App.release.
  run_monad. unfold App.log_release, App.with_dispatch_task. simpl.
  destruct (fails App.CloseEngine) eqn:H1; simpl.
  { split_and!; try done.
    - by rewrite <- app_assoc.
    - split; [done|]. intros Hall. inversion Hall; congruence. }
  destruct (fails App.CloseLongEngine) eqn:H2; simpl.
  { split_and!; try done.
    - by rewrite <- !app_assoc.
    - split; [done|]. intros Hall. inversion Hall as [|? ? ? Hall'].
      inversion Hall'; congruence. }
  destruct br as [b|], pw as [p|]; simpl;
    repeat match goal with
      | |- context [fails ?r] =>
          lazymatch r with
          | App.CloseBrowser => destruct (fails App.CloseBrowser) eqn:H3
          | App.StopPlaywright => destruct (fails App.StopPlaywright) eqn:H4
          end; simpl
      end;
    (split_and!;
     [by rewrite <- !app_assoc
     |done
     |split; [intros Hr; try done; repeat constructor; done
             |intros Hall; try done;
              repeat match goal with
                | H : Forall _ (_ :: _) |- _ => inversion H; clear H; subst
                end; congruence]
     |intros Hr; try done; by rewrite <- !app_assoc
     |intros Hr; try done]).
Qed.

End Cleanup.

(** C8, counterexample.  The first engine's [close()] raises: [close] has
    cancelled the dispatch task and tried that engine, and has not tried the
    second engine, the browser or playwright, all of which it owed. *)
Lemma close_skips_later_releases :
  let '(r, app') := App.close Samples.engine_fails Samples.browsing in
  r = Raise (ExternalError "release failed")
  ∧ App.release_log app' = [App.CancelDispatch; App.CloseEngine]
  ∧ App.owed Samples.browsing
    = [App.CloseEngine; App.CloseLongEngine; App.CloseBrowser;
       App.StopPlaywright]
  ∧ (App.CloseLongEngine ∉ App.release_log app')
  ∧ (App.CloseBrowser ∉ App.release_log app')
  ∧ (App.StopPlaywright ∉ App.release_log app').
Proof.
  vm_compute. split_and!; try reflexivity.
  all: intros H; repeat (inversion H as [|? ? ? H']; clear H; rename H' into H).
Qed.

(** ** Delegating and waiting *)

Section Waiting.

Variable repr : string → string.
Variable ratio : string → option string → Q.
Variable create_delegate_kani : M BaseKani Helper.
Variable full_round : Helper → string → Round.


(** A scope around a body that leaves the node alone. *)
Lemma set_state_waiting_pure {A} (body : M BaseKani A) (r : outcome A) self :
  (∀ s, body s = (r, s)) → r ≠ Blocked →
  set_state WAITING body self = (r, waited self).
Proof.
  intros Hbody Hr. unfold waited.
  apply set_state_restores; [apply Hbody|done|discriminate].
Qed.

Lemma set_state_waiting_blocked {A} (body : M BaseKani A) self :
  (∀ s, body s = (Blocked, s)) →
  set_state WAITING body self = (Blocked, transition WAITING self).
Proof. intros Hbody. apply set_state_blocked, Hbody. Qed.

Lemma asyncio_wait_empty {S} rw done (s : S) :
  asyncio_wait full_round [] rw done s
  = (Raise (ValueError "Set of Tasks/Futures is empty."), s).
Proof. reflexivity. Qed.

Lemma values_empty self : helper_futures self = ∅ → values self = [].
Proof. unfold values. intros ->. by rewrite map_to_list_empty. Qed.

Lemma elem_of_values self f :
  f ∈ values self ↔ ∃ k, helper_futures self !! k = Some f.
Proof.
  unfold values. rewrite list_elem_of_fmap. split.
  - intros ([k f'] & -> & Hin). exists k. by apply elem_of_map_to_list.
  - intros [k Hk]. exists (k, f). split; [done|]. by apply elem_of_map_to_list.
Qed.

Lemma wait_next_unfold done self :
  wait full_round "next" done self
  = (done ← set_state WAITING
              (asyncio_wait full_round (values self) FIRST_COMPLETED done);
     match done with
     | [] => raise (KeyError "pop from an empty set")
     | future :: _ =>
         '(result, helper_name) ← future_result full_round future;
         pop helper_name;;
         mret (block helper_name result)
     end) self.
Proof.
  unfold DelegateWaitMixin.wait at 1. unfold mbind at 1, M_bind at 1, get.
  rewrite andb_false_r. reflexivity.
Qed.

Lemma wait_all_unfold done self :
  wait full_round "all" done self
  = (done ← set_state WAITING
              (asyncio_wait full_round (values self) ALL_COMPLETED done);
     results ← collect full_round done;
     modify (with_helper_futures ∅);;
     mret (String.concat separator results)) self.
Proof.
  unfold DelegateWaitMixin.wait at 1. unfold mbind at 1, M_bind at 1, get.
  rewrite andb_false_r. reflexivity.
Qed.

(** C9.  [wait("next")] and [wait("all")] with nothing pending get past the
    usage check and raise the [ValueError] of [asyncio.wait] on an empty
    collection: the call returns no text, neither a formatted result nor
    the usage message.  The [WAITING] scope around the failed wait was
    entered and left. *)
Theorem wait_on_nothing (until : string) (done : list Future) self :
  helper_futures self = ∅ →
  until = "next" ∨ until = "all" →
  wait full_round until done self
  = (Raise (ValueError "Set of Tasks/Futures is empty."), waited self)
  ∧ (∀ text final, wait full_round until done self ≠ (Ret text, final))
  ∧ helper_futures (waited self) = ∅.
Proof.
  intros Hempty Huntil.
  assert (wait full_round until done self
          = (Raise (ValueError "Set of Tasks/Futures is empty."), waited self))
    as Hrun.
  { destruct Huntil as [-> | ->].
    - rewrite wait_next_unfold. apply bind_raise.
      rewrite (values_empty _ Hempty).
      by apply set_state_waiting_pure.
    - rewrite wait_all_unfold. apply bind_raise.
      rewrite (values_empty _ Hempty).
      by apply set_state_waiting_pure. }
  split; [done|]. split; [by rewrite Hrun|done].
Qed.

Lemma task_done_name f t text name :
  _task full_round f = TaskDone t (text, name) →
  name = helper_name (fut_helper f).
Proof.
  unfold _task. destruct (full_round _ _); [|done..]. by intros [= _ _ <-].
Qed.

Lemma finished_by_finished t f :
  finished_by full_round t f = true → finished full_round f = true.
Proof. unfold finished_by, finished. by destruct (_task full_round f). Qed.

Lemma asyncio_wait_first {S} fs done (s : S) f :
  f ∈ fs → finished full_round f = true →
  asyncio_wait full_round fs FIRST_COMPLETED done s = (Ret done, s).
Proof.
  intros Hin Hf. unfold asyncio_wait.
  destruct (decide (fs = [])) as [->|_]; [by apply not_elem_of_nil in Hin|].
  assert (existsb (finished full_round) fs = true) as ->; [|done].
  apply existsb_exists. exists f. split; [by apply list_elem_of_In|done].
Qed.

Lemma asyncio_wait_first_blocked {S} fs done (s : S) :
  fs ≠ [] → Forall (fun f => finished full_round f = false) fs →
  asyncio_wait full_round fs FIRST_COMPLETED done s = (Blocked, s).
Proof.
  intros Hne Hall. unfold asyncio_wait. rewrite decide_False by done.
  assert (existsb (finished full_round) fs = false) as ->; [|done].
  apply not_true_is_false. intros (f & Hin & Hf)%existsb_exists.
  rewrite Forall_forall in Hall. apply list_elem_of_In in Hin.
  specialize (Hall f Hin). congruence.
Qed.

Lemma values_nonempty self : helper_futures self ≠ ∅ → values self ≠ [].
Proof.
  unfold values. intros Hne Hnil. apply Hne.
  apply fmap_nil_inv in Hnil. by apply map_to_list_empty_iff.
Qed.

Lemma values_NoDup self : consistent self → NoDup (values self).
Proof.
  intros (_ & Hkeys & _). unfold values.
  apply NoDup_fmap_2_strong; [|apply NoDup_map_to_list].
  intros [k1 f1] [k2 f2] H1%elem_of_map_to_list H2%elem_of_map_to_list.
  simpl. intros <-. f_equal.
  by rewrite <- (Hkeys _ _ H1), <- (Hkeys _ _ H2).
Qed.

(** Once a pending task has finished, [asyncio.wait] has a set to return. *)
Lemma done_set_first_exists self f :
  consistent self →
  f ∈ values self → finished full_round f = true →
  ∃ done, done_set full_round (values self) FIRST_COMPLETED done.
Proof.
  intros Hcons Hin Hfin.
  assert (∃ t, finished_by full_round t f = true) as [t Ht].
  { unfold finished, finished_by in *.
    destruct (_task full_round f) as [t r|t e|]; [exists t..|done];
      by apply bool_decide_eq_true. }
  exists (filter (fun g => finished_by full_round t g = true) (values self)).
  split_and!.
  - intros Hnil.
    assert (f ∈ filter (fun g => finished_by full_round t g = true)
                       (values self)) as Hf
      by (by apply list_elem_of_filter).
    rewrite Hnil in Hf. by apply not_elem_of_nil in Hf.
  - by apply NoDup_filter, values_NoDup.
  - exists t. intros g. rewrite list_elem_of_filter. tauto.
Qed.

(** The text of a finished task is what its helper's run yielded: the
    non-empty assistant contents, one per line. *)
Lemma task_done_text f t text name :
  _task full_round f = TaskDone t (text, name) →
  ∃ msgs,
    full_round (fut_helper f) (fut_instructions f) = Yielded t msgs
    ∧ text = String.concat LF (omap assistant_text msgs).
Proof.
  unfold _task. destruct (full_round _ _) as [t' msgs| |]; [|done..].
  intros [= <- <- _]. by exists msgs.
Qed.

(** C6, as the code has it.  [wait("next")] on a node with pending work,
    the dictionaries in the shape [delegate] gives them.  While no pending
    task has finished the call stays suspended inside its [WAITING] scope;
    once one has, [asyncio.wait] has a set of finished tasks to hand back.
    For every such set, when the task popped from it ended with the result
    [(text, name)], the call returns the name, a colon, a line feed and the
    text, the text being the non-empty assistant contents of the helper's
    run joined by line feeds; [name] was pending with that task and is
    removed from [helper_futures], every other name stays pending as it
    was, [helpers] is untouched and still holds [name], and the [WAITING]
    scope has been entered and left (two state-change events, the state
    back to what it was).  When the popped task raised, its exception
    leaves [wait], behind the same two events, and no name is removed. *)
Theorem wait_next_takes_one self :
  consistent self →
  helper_futures self ≠ ∅ →
  (Forall (fun f => finished full_round f = false) (values self) →
   ∀ done, wait full_round "next" done self
           = (Blocked, transition WAITING self))
  ∧ (∀ f, f ∈ values self → finished full_round f = true →
          ∃ done, done_set full_round (values self) FIRST_COMPLETED done)
  ∧ (∀ done future t e,
       done_set full_round (values self) FIRST_COMPLETED done →
       head done = Some future →
       _task full_round future = TaskRaised t e →
       wait full_round "next" done self = (Raise e, waited self)
       ∧ helper_futures (waited self) = helper_futures self
       ∧ helpers (waited self) = helpers self)
  ∧ (∀ done future t text name,
       done_set full_round (values self) FIRST_COMPLETED done →
       head done = Some future →
       _task full_round future = TaskDone t (text, name) →
       let final :=
         with_helper_futures (delete name (helper_futures self))
                             (waited self) in
       wait full_round "next" done self
       = (Ret (name +:+ ":" +:+ LF +:+ text), final)
       ∧ (∃ msgs,
            full_round (fut_helper future) (fut_instructions future)
            = Yielded t msgs
            ∧ text = String.concat LF (omap assistant_text msgs))
       ∧ helper_futures self !! name = Some future
       ∧ helper_futures final !! name = None
       ∧ (∀ other, other ≠ name →
            helper_futures final !! other = helper_futures self !! other)
       ∧ helpers final = helpers self
       ∧ is_Some (helpers final !! name)
       ∧ state final = state self
       ∧ App.event_queue (app final)
         = (App.event_queue (app self)
            ++ [KaniStateChange (id self) WAITING;
                KaniStateChange (id self) (state self)])%list).
Proof.
  intros Hcons Hne. pose proof Hcons as (_ & Hkeys & Hknown). split_and!.
  - intros Hnone done. rewrite wait_next_unfold. apply bind_blocked.
    apply set_state_waiting_blocked. intros s.
    apply asyncio_wait_first_blocked; [by apply values_nonempty|done].
  - intros f. by apply done_set_first_exists.
  - intros done future t e (_ & _ & t0 & Hdone) Hhead Htask.
    destruct done as [|f rest]; [done|]. injection Hhead as ->.
    destruct (Hdone future) as [Hin _].
    destruct Hin as [Hin Hfin]; [by left|].
    apply finished_by_finished in Hfin. split; [|done].
    rewrite wait_next_unfold.
    erewrite bind_ret;
      [|apply set_state_waiting_pure;
        [intros s; by eapply asyncio_wait_first|done]].
    unfold future_result. by rewrite Htask.
  - intros done future t text name (_ & _ & t0 & Hdone) Hhead Htask final.
    destruct done as [|f rest]; [done|]. injection Hhead as ->.
    destruct (Hdone future) as [Hin _].
    destruct Hin as [Hin Hfin]; [by left|].
    apply finished_by_finished in Hfin.
    pose proof Hin as [k Hk]%elem_of_values.
    pose proof (task_done_name _ _ _ _ Htask) as Hname.
    rewrite (Hkeys _ _ Hk) in Hname. subst k.
    assert (wait full_round "next" (future :: rest) self
            = (Ret (name +:+ ":" +:+ LF +:+ text), final)) as Hrun.
    { rewrite wait_next_unfold.
      erewrite bind_ret;
        [|apply set_state_waiting_pure;
          [intros s; by eapply asyncio_wait_first|done]].
      unfold future_result. rewrite Htask.
      unfold mbind, M_bind, mret, M_ret, pop. simpl. by rewrite Hk. }
    split_and!; try done.
    + by eapply task_done_text.
    + subst final. simpl. apply lookup_delete_eq.
    + intros other Hother. subst final. simpl. by apply lookup_delete_ne.
    + subst final. simpl. by eapply Hknown.
    + subst final. simpl. by rewrite <- app_assoc.
Qed.

Lemma asyncio_wait_all {S} fs done (s : S) :
  fs ≠ [] → Forall (fun f => finished full_round f = true) fs →
  asyncio_wait full_round fs ALL_COMPLETED done s = (Ret done, s).
Proof.
  intros Hne Hall. unfold asyncio_wait. rewrite decide_False by done.
  assert (forallb (finished full_round) fs = true) as ->; [|done].
  apply forallb_forall. intros f Hin. rewrite Forall_forall in Hall.
  apply Hall. by apply list_elem_of_In.
Qed.

Lemma asyncio_wait_all_blocked {S} fs done (s : S) :
  Exists (fun f => finished full_round f = false) fs →
  asyncio_wait full_round fs ALL_COMPLETED done s = (Blocked, s).
Proof.
  intros Hex. unfold asyncio_wait.
  destruct (decide (fs = [])) as [->|_]; [by apply Exists_nil in Hex|].
  assert (forallb (finished full_round) fs = false) as ->; [|done].
  apply not_true_is_false. intros Hall.
  apply Exists_exists in Hex as (f & Hin & Hf).
  rewrite forallb_forall in Hall. apply list_elem_of_In in Hin.
  specialize (Hall f Hin). congruence.
Qed.

Lemma collect_blocks {S} (done : list Future) :
  Forall (fun f => ∃ t r, _task full_round f = TaskDone t r) done →
  ∃ blocks, (∀ s : S, collect full_round done s = (Ret blocks, s))
            ∧ Forall2 (block_of full_round) done blocks.
Proof.
  induction done as [|f done IH]; intros Hall.
  - exists []. split; [done|constructor].
  - inversion Hall as [|? ? (t & [text name] & Htask) Hrest]; subst.
    destruct (IH Hrest) as (blocks & Hrun & Hblocks).
    pose proof (task_done_name _ _ _ _ Htask) as ->.
    exists (block (helper_name (fut_helper f)) text :: blocks). split.
    + intros s. simpl. unfold future_result. rewrite Htask.
      unfold mbind, M_bind, mret, M_ret. simpl. by rewrite Hrun.
    + constructor; [|done]. by exists t, text.
Qed.

Lemma names_of_values self :
  consistent self →
  (fun f => helper_name (fut_helper f)) <$> values self
  = (map_to_list (helper_futures self)).*1.
Proof.
  intros (_ & Hkeys & _). unfold values. rewrite <- list_fmap_compose.
  apply list_eq_Forall2, Forall2_fmap, Forall_Forall2_diag, Forall_forall.
  intros [k f] Hin%elem_of_map_to_list. simpl. by apply Hkeys.
Qed.

(** C5, as the code has it.  [wait("all")] on a node with [n] pending
    tasks, the dictionaries keyed by helper name.  While some pending task
    has not finished the call stays suspended inside its [WAITING] scope.
    When every pending task ends with a result, [asyncio.wait] has a set to
    hand back, and for every order [done] in which that set is iterated
    the call returns [n] blocks ["name:\ntext"] joined by the separator,
    one per pending helper, in the order of [done]; [helper_futures] is
    then empty, [helpers] untouched, and the [WAITING] scope entered and
    left. *)
Theorem wait_all_collects self :
  consistent self →
  helper_futures self ≠ ∅ →
  (Exists (fun f => finished full_round f = false) (values self) →
   ∀ done, wait full_round "all" done self
           = (Blocked, transition WAITING self))
  ∧ (Forall (fun f => ∃ t r, _task full_round f = TaskDone t r)
            (values self) →
     done_set full_round (values self) ALL_COMPLETED (values self)
     ∧ ∀ done,
         done_set full_round (values self) ALL_COMPLETED done →
         let final := with_helper_futures ∅ (waited self) in
         ∃ blocks,
           wait full_round "all" done self
           = (Ret (String.concat separator blocks), final)
           ∧ length blocks = size (helper_futures self)
           ∧ Forall2 (block_of full_round) done blocks
           ∧ (fun f => helper_name (fut_helper f)) <$> done
             ≡ₚ (map_to_list (helper_futures self)).*1
           ∧ helper_futures final = ∅
           ∧ helpers final = helpers self
           ∧ state final = state self
           ∧ App.event_queue (app final)
             = (App.event_queue (app self)
                ++ [KaniStateChange (id self) WAITING;
                    KaniStateChange (id self) (state self)])%list).
Proof.
  intros Hnamed Hne. split.
  - intros Hex done. rewrite wait_all_unfold. apply bind_blocked.
    apply set_state_waiting_blocked. intros s.
    by apply asyncio_wait_all_blocked.
  - intros Hall. split; [by unfold done_set|]. intros done Hdone final.
    simpl in Hdone.
    assert (Forall (fun f => ∃ t r, _task full_round f = TaskDone t r) done)
      as Hdone_all by (by rewrite Hdone).
    destruct (collect_blocks (S:=BaseKani) done Hdone_all)
      as (blocks & Hcollect & Hblocks).
    exists blocks. split_and!; try done.
    + rewrite wait_all_unfold.
      erewrite bind_ret;
        [|apply set_state_waiting_pure;
          [intros s; apply asyncio_wait_all;
            [by apply values_nonempty|]|done]].
      * erewrite bind_ret by apply Hcollect. reflexivity.
      * eapply Forall_impl; [exact Hall|].
        intros f (t & r & Hf). unfold finished. by rewrite Hf.
    + rewrite <- (Forall2_length _ _ _ Hblocks), Hdone.
      unfold values. by rewrite length_fmap, length_map_to_list.
    + rewrite Hdone. by rewrite names_of_values.
    + subst final. simpl. by rewrite <- app_assoc.
Qed.

Lemma near_duplicate_true instructions self :
  near_duplicate ratio instructions self = true
  ↔ ∃ m, last_user_message self = Some m
         ∧ (80 < ratio instructions (content m))%Q.
Proof.
  unfold near_duplicate. destruct (last_user_message self) as [m|].
  - destruct (Qlt_le_dec 80 (ratio instructions (content m))) as [Hlt|Hle].
    + split; [eauto|done].
    + split; [done|]. intros (m' & [= <-] & Hlt).
      by apply Qle_not_lt in Hle.
  - split; [done|]. by intros (m' & ? & _).
Qed.

Lemma delegate_guarded instructions who self :
  near_duplicate ratio instructions self = true →
  delegate repr ratio create_delegate_kani instructions who self
  = (Ret guidance, self).
Proof.
  intros Hdup. unfold delegate. unfold mbind at 1, M_bind at 1, get.
  by rewrite Hdup.
Qed.

(** C4, as the code has it.  When the lookup [last_user_message] returns
    the most recent user message [m] and the ratio of [instructions] to its
    content is strictly above 80, [delegate] returns the guidance text and
    leaves the node as it was: no helper is created, [helpers] and
    [helper_futures] are unchanged. *)
Theorem delegate_refuses_near_duplicate instructions who self m :
  last_user_message self = Some m →
  most_recent_user_message (chat_history self) = Some m →
  (80 < ratio instructions (content m))%Q →
  delegate repr ratio create_delegate_kani instructions who self
  = (Ret guidance, self).
Proof.
  intros Hfirst _ Hratio. apply delegate_guarded.
  apply near_duplicate_true. eauto.
Qed.

(** C7, as the code has it.  When [who] is a non-empty name of a helper
    that has pending work, [delegate] returns a refusal and leaves the node
    as it was: no helper is created, no task is started, [helpers] and
    [helper_futures] are unchanged.  The refusal is the busy message,
    unless the loop guard, which is checked first, fires: then it is the
    loop guard's guidance. *)
Theorem delegate_refuses_busy_helper instructions who self h f :
  who ≠ "" →
  helpers self !! who = Some h →
  helper_futures self !! who = Some f →
  ∃ refusal,
    delegate repr ratio create_delegate_kani instructions (Some who) self
    = (Ret refusal, self)
    ∧ (near_duplicate ratio instructions self = false →
       refusal = busy repr who)
    ∧ (near_duplicate ratio instructions self = true →
       refusal = guidance).
Proof.
  intros Hwho Hh Hf.
  destruct (near_duplicate ratio instructions self) eqn:Hdup.
  - exists guidance. split; [by apply delegate_guarded|]. by split.
  - exists (busy repr who). split; [|by split].
    unfold delegate. unfold mbind at 1, M_bind at 1, get. rewrite Hdup.
    unfold known_helper. rewrite decide_False by done. rewrite Hh. simpl.
    rewrite decide_True by (by rewrite Hf). reflexivity.
Qed.

(** *** The naming invariant is kept *)

Lemma consistent_same_maps self final :
  same_maps self final → consistent self → consistent final.
Proof.
  intros [Hh Hf] (Hhelpers & Hfutures & Hknown). split_and!.
  - intros k h. rewrite Hh. apply Hhelpers.
  - intros k f Hk. apply Hfutures. by eapply lookup_weaken.
  - intros k f Hk. rewrite Hh. eapply Hknown. by eapply lookup_weaken.
Qed.

Lemma asyncio_wait_pure fs rw done :
  ∃ r, ∀ s : BaseKani, asyncio_wait full_round fs rw done s = (r, s).
Proof.
  unfold asyncio_wait. destruct (decide (fs = [])); [by eexists|].
  destruct rw; [destruct (existsb _ _)|destruct (forallb _ _)]; by eexists.
Qed.

Lemma await_pure f :
  ∃ r, ∀ s : BaseKani, await full_round f s = (r, s).
Proof. unfold await. destruct (_task full_round f); by eexists. Qed.

Lemma future_result_pure f :
  ∃ r, ∀ s : BaseKani, future_result full_round f s = (r, s).
Proof. unfold future_result. destruct (_task full_round f); by eexists. Qed.

Lemma collect_pure done :
  ∃ r, ∀ s : BaseKani, collect full_round done s = (r, s).
Proof.
  induction done as [|f done [r IH]]; [by eexists|]. simpl.
  destruct (future_result_pure f) as [[[text name']|e|] Hf].
  - destruct r as [blocks|e|].
    + eexists. intros s. unfold mbind, M_bind. rewrite Hf, IH. reflexivity.
    + eexists. intros s. unfold mbind, M_bind. by rewrite Hf, IH.
    + eexists. intros s. unfold mbind, M_bind. by rewrite Hf, IH.
  - eexists. intros s. unfold mbind, M_bind. by rewrite Hf.
  - eexists. intros s. unfold mbind, M_bind. by rewrite Hf.
Qed.

Lemma set_state_pure_maps {A} (body : M BaseKani A) r self :
  (∀ s, body s = (r, s)) →
  ∃ final, set_state WAITING body self = (r, final)
           ∧ helpers final = helpers self
           ∧ helper_futures final = helper_futures self.
Proof.
  intros Hbody. destruct r as [a|e|].
  - exists (waited self). split; [by apply set_state_waiting_pure|done].
  - exists (waited self). split; [by apply set_state_waiting_pure|done].
  - exists (transition WAITING self).
    split; [by apply set_state_waiting_blocked|done].
Qed.

Lemma pop_same_maps key self r final :
  pop key self = (r, final) → same_maps self final.
Proof.
  unfold pop. destruct (helper_futures self !! key); intros [= <- <-].
  - split; [done|]. simpl. apply delete_subseteq.
  - by split.
Qed.

Lemma wait_same_maps until done self r final :
  wait full_round until done self = (r, final) → same_maps self final.
Proof.
  unfold wait. unfold mbind at 1, M_bind at 1, get.
  destruct (_ && _); [by intros [= <- <-]|].
  destruct (decide (until = "next")) as [_|_];
    [|destruct (decide (until = "all")) as [_|_]].
  - destruct (asyncio_wait_pure (values self) FIRST_COMPLETED done)
      as [out Hout].
    destruct (set_state_pure_maps _ out self Hout) as (s1 & Hs1 & Hh & Hf).
    unfold mbind at 1, M_bind at 1. rewrite Hs1.
    destruct out as [[|future rest]|e|]; try by intros [= <- <-]; split;
      [|rewrite Hf].
    destruct (future_result_pure future) as [[[text name']|e|] Hres];
      unfold mbind at 1, M_bind at 1; rewrite Hres;
      try by intros [= <- <-]; split; [|rewrite Hf].
    unfold mbind, M_bind, mret, M_ret.
    destruct (pop name' s1) as [[fut|e|] s2] eqn:Hpop; intros [= <- <-];
      apply pop_same_maps in Hpop as [Hh2 Hf2];
      (split; [congruence|by rewrite <- Hf]).
  - destruct (asyncio_wait_pure (values self) ALL_COMPLETED done)
      as [out Hout].
    destruct (set_state_pure_maps _ out self Hout) as (s1 & Hs1 & Hh & Hf).
    unfold mbind at 1, M_bind at 1. rewrite Hs1.
    destruct out as [done'|e|]; try by intros [= <- <-]; split;
      [|rewrite Hf].
    destruct (collect_pure done') as [[blocks|e|] Hres];
      unfold mbind at 1, M_bind at 1; rewrite Hres;
      try by intros [= <- <-]; split; [|rewrite Hf].
    unfold mbind, M_bind, mret, M_ret, modify. intros [= <- <-].
    split; [done|]. simpl. apply map_empty_subseteq.
  - unfold mbind at 1, M_bind at 1.
    destruct (pop until self) as [[fut|e|] s1] eqn:Hpop;
      pose proof (pop_same_maps _ _ _ _ Hpop) as [Hh Hf];
      try by intros [= <- <-].
    destruct (await_pure fut) as [out Hout].
    destruct (set_state_pure_maps _ out s1 Hout) as (s2 & Hs2 & Hh2 & Hf2).
    unfold mbind at 1, M_bind at 1. rewrite Hs2.
    destruct out as [[text name']|e|]; intros [= <- <-];
      (split; [congruence|by rewrite Hf2]).
Qed.

(** [wait] keeps the dictionaries keyed by name. *)
Lemma wait_consistent until done self r final :
  wait full_round until done self = (r, final) →
  consistent self → consistent final.
Proof. intros Hrun. eapply consistent_same_maps, wait_same_maps, Hrun. Qed.

(** [delegate] keeps the dictionaries keyed by name, as long as creating a
    helper does. *)
Lemma delegate_consistent instructions who self r final :
  (∀ s r' s', create_delegate_kani s = (r', s') →
              consistent s → consistent s') →
  delegate repr ratio create_delegate_kani instructions who self = (r, final) →
  consistent self → consistent final.
Proof.
  intros Hcreate. unfold delegate. unfold mbind at 1, M_bind at 1, get.
  destruct (near_duplicate _ _ _); [by intros [= <- <-]|].
  destruct (known_helper who self) as [[who' h]|] eqn:Hlookup.
  - unfold known_helper in Hlookup. destruct who as [w|]; [|done].
    destruct (decide (w = "")); [done|].
    destruct (helpers self !! w) as [h'|] eqn:Hw; [|done].
    simpl in Hlookup. injection Hlookup as <- <-.
    destruct (decide (is_Some (helper_futures self !! w)));
      [by intros [= <- <-]|].
    unfold mbind, M_bind, mret, M_ret, modify. intros [= <- <-].
    intros (Hh & Hf & Hknown). pose proof (Hh _ _ Hw) as Hname.
    split_and!; [done|..]; simpl; intros k f;
      rewrite lookup_insert; case_decide as Hk.
    + by intros [= <-].
    + apply Hf.
    + intros _. rewrite <- Hk, Hname. by rewrite Hw.
    + apply Hknown.
  - unfold mbind, M_bind, mret, M_ret, modify.
    destruct (create_delegate_kani self) as [[h|e|] s1] eqn:Hc;
      intros [= <- <-];
      intros Hnamed;
      pose proof (Hcreate _ _ _ Hc Hnamed) as (Hh & Hf & Hknown);
      try done.
    split_and!; simpl; intros k x; rewrite !lookup_insert;
      case_decide as Hk.
    + by intros [= <-].
    + apply Hh.
    + by intros [= <-].
    + apply Hf.
    + by intros _.
    + apply Hknown.
Qed.

End Waiting.

(** ** The properties on the sample nodes *)

(** A node that has not delegated yet has its dictionaries in shape. *)
Lemma root_consistent history : consistent (Samples.root history).
Proof.
  split_and!; intros k x Hk; simpl in Hk; by rewrite lookup_empty in Hk.
Qed.

Lemma delegating_consistent : consistent Samples.delegating.
Proof.
  split_and!.
  - apply (bool_decide_unpack
             (map_Forall (fun k h => helper_name h = k)
                         (helpers Samples.delegating))).
    vm_compute. exact I.
  - apply (bool_decide_unpack
             (map_Forall (fun k f => helper_name (fut_helper f) = k)
                         (helper_futures Samples.delegating))).
    vm_compute. exact I.
  - apply (bool_decide_unpack
             (map_Forall (fun k (f : Future) =>
                            is_Some (helpers Samples.delegating !! k))
                         (helper_futures Samples.delegating))).
    vm_compute. exact I.
Defined.

Lemma delegating_values :
  values Samples.delegating = [Samples.flights; Samples.hotels].
Proof. vm_compute. reflexivity. Defined.

Lemma delegating_pending : helper_futures Samples.delegating ≠ ∅.
Proof.
  intros Hempty.
  assert (helper_futures Samples.delegating !! "ann" = None) as Hann
    by (by rewrite Hempty).
  vm_compute in Hann. discriminate.
Defined.

(** ann is the only one done at time 1. *)
Lemma delegating_first_done :
  done_set Samples.rounds (values Samples.delegating) FIRST_COMPLETED
           [Samples.flights].
Proof.
  rewrite delegating_values. split; [discriminate|].
  split; [repeat constructor; by intros ?%not_elem_of_nil|].
  exists 1. intros f. split.
  - intros ->%list_elem_of_singleton. split; [by left|reflexivity].
  - intros [Hin Hfin].
    apply elem_of_cons in Hin as [->|Hin]; [by left|].
    apply list_elem_of_singleton in Hin as ->. vm_compute in Hfin.
    discriminate.
Defined.

(** Witness of [wait_next_takes_one]: ann's result is taken, bob stays
    pending. *)
Lemma wait_next_takes_one_witness :
  wait Samples.rounds "next" [Samples.flights] Samples.delegating
  = (Ret ("ann" +:+ ":" +:+ LF +:+ "two flights"),
     with_helper_futures (delete "ann" (helper_futures Samples.delegating))
                         (waited Samples.delegating))
  ∧ helper_futures Samples.delegating !! "ann" = Some Samples.flights
  ∧ helper_futures
      (with_helper_futures (delete "ann" (helper_futures Samples.delegating))
                           (waited Samples.delegating)) !! "bob"
    = Some Samples.hotels.
Proof.
  destruct (wait_next_takes_one Samples.rounds Samples.delegating
              delegating_consistent delegating_pending)
    as (_ & _ & _ & Htake).
  destruct (Htake [Samples.flights] Samples.flights 1 "two flights" "ann"
              delegating_first_done eq_refl eq_refl)
    as (Hrun & _ & Hwas & _ & Hothers & _ & _).
  split; [exact Hrun|]. split; [exact Hwas|].
  rewrite (Hothers "bob"); [reflexivity|discriminate].
Defined.

Lemma delegating_all_done :
  Forall (fun f => ∃ t r, _task Samples.rounds f = TaskDone t r)
         (values Samples.delegating).
Proof.
  rewrite delegating_values. repeat constructor.
  - by exists 1, ("two flights", "ann").
  - by exists 2, ("three hotels", "bob").
Defined.

Lemma delegating_done_backwards :
  done_set Samples.rounds (values Samples.delegating) ALL_COMPLETED
           [Samples.hotels; Samples.flights].
Proof. rewrite delegating_values. apply perm_swap. Defined.

(** Witness of [wait_all_collects]: both results come back, here with the
    set iterated bob first. *)
Lemma wait_all_collects_witness :
  ∃ blocks,
    wait Samples.rounds "all" [Samples.hotels; Samples.flights]
         Samples.delegating
    = (Ret (String.concat separator blocks),
       with_helper_futures ∅ (waited Samples.delegating))
    ∧ length blocks = 2.
Proof.
  destruct (wait_all_collects Samples.rounds Samples.delegating
              delegating_consistent delegating_pending) as [_ Hall].
  destruct (Hall delegating_all_done) as [_ Hcollect].
  destruct (Hcollect [Samples.hotels; Samples.flights]
              delegating_done_backwards)
    as (blocks & Hrun & Hlen & _).
  exists blocks. split; [exact Hrun|exact Hlen].
Defined.

(** C5, counterexample.  ann finishes at time 1 and bob at time 2.  The set
    of finished tasks iterated bob first is a set [asyncio.wait] may hand
    back, and [wait("all")] then returns bob's block before ann's: not the
    text in completion order. *)
Lemma wait_all_not_in_completion_order :
  _task Samples.rounds Samples.flights = TaskDone 1 ("two flights", "ann")
  ∧ _task Samples.rounds Samples.hotels = TaskDone 2 ("three hotels", "bob")
  ∧ done_set Samples.rounds (values Samples.delegating) ALL_COMPLETED
             [Samples.hotels; Samples.flights]
  ∧ (wait Samples.rounds "all" [Samples.hotels; Samples.flights]
          Samples.delegating).1
    = Ret (String.concat separator
             [block "bob" "three hotels"; block "ann" "two flights"])
  ∧ (wait Samples.rounds "all" [Samples.hotels; Samples.flights]
          Samples.delegating).1
    ≠ Ret (String.concat separator
             [block "ann" "two flights"; block "bob" "three hotels"]).
Proof.
  split; [reflexivity|]. split; [reflexivity|].
  split; [exact delegating_done_backwards|].
  split; [by vm_compute|]. vm_compute. discriminate.
Qed.

(** Witness of [wait_on_nothing]: a fresh root waits for the next helper. *)
Lemma wait_on_nothing_witness :
  wait Samples.rounds "next" [] (Samples.root [])
  = (Raise (ValueError "Set of Tasks/Futures is empty."),
     waited (Samples.root [])).
Proof.
  destruct (wait_on_nothing Samples.rounds "next" [] (Samples.root []))
    as [Hrun _]; [reflexivity|by left|exact Hrun].
Defined.

(** Witness of [delegate_refuses_near_duplicate]: the node was asked to
    ["find hotel"] and passes on ["find hotels"]. *)
Lemma delegate_refuses_near_duplicate_witness :
  delegate Samples.quote fuzz_ratio Samples.create "find hotels" None
           Samples.delegating
  = (Ret guidance, Samples.delegating).
Proof.
  apply (delegate_refuses_near_duplicate Samples.quote fuzz_ratio
           Samples.create "find hotels" None Samples.delegating
           (Samples.user "find hotel")).
  - reflexivity.
  - reflexivity.
  - vm_compute. reflexivity.
Defined.

(** C4, counterexample.  The node was asked to ["find hotel"] and delegates
    ["find model"]: eight of ten characters agree in order, the ratio is
    exactly 80, and the delegation goes through, with a new helper and a
    new task. *)
Lemma delegate_at_exactly_80 :
  last_user_message (Samples.root [Samples.user "find hotel"])
  = Some (Samples.user "find hotel")
  ∧ (fuzz_ratio "find model" (Some "find hotel") == 80)%Q
  ∧ let '(r, after) :=
      delegate Samples.quote fuzz_ratio Samples.create "find model" None
               (Samples.root [Samples.user "find hotel"]) in
    r = Ret "'helper-1' is helping you with this request."
    ∧ r ≠ Ret guidance
    ∧ helpers after !! "helper-1" = Some Samples.fresh
    ∧ helper_futures after !! "helper-1"
      = Some {| fut_helper := Samples.fresh;
                fut_instructions := "find model" |}
    ∧ helpers (Samples.root [Samples.user "find hotel"]) !! "helper-1" = None.
Proof.
  split; [reflexivity|]. split; [by vm_compute|].
  vm_compute. split_and!; try reflexivity. discriminate.
Qed.

(** Witness of [delegate_refuses_busy_helper]: ann is busy, the request is
    new. *)
Lemma delegate_refuses_busy_helper_witness :
  delegate Samples.quote fuzz_ratio Samples.create "book a taxi" (Some "ann")
           Samples.delegating
  = (Ret (busy Samples.quote "ann"), Samples.delegating).
Proof.
  destruct (delegate_refuses_busy_helper Samples.quote fuzz_ratio
              Samples.create "book a taxi" "ann" Samples.delegating
              Samples.ann Samples.flights)
    as (refusal & Hrun & Hbusy & _);
    [discriminate|reflexivity|reflexivity|].
  rewrite Hrun, Hbusy; [reflexivity|by vm_compute].
Defined.

(** C7, counterexample.  ann is busy and the instructions repeat the node's
    own task: the loop guard answers first, and what comes back is its
    guidance, not the message about the busy helper. *)
Lemma delegate_busy_helper_guarded :
  helpers Samples.delegating !! "ann" = Some Samples.ann
  ∧ helper_futures Samples.delegating !! "ann" = Some Samples.flights
  ∧ delegate Samples.quote fuzz_ratio Samples.create "find hotel" (Some "ann")
             Samples.delegating
    = (Ret guidance, Samples.delegating)
  ∧ guidance ≠ busy Samples.quote "ann".
Proof.
  split; [reflexivity|]. split; [reflexivity|].
  split; [by vm_compute|]. vm_compute. discriminate.
Qed.

(** * More properties *)

(** ** Nested scopes and rounds *)

Section Nesting.

Context {A : Type}.
Implicit Types (body : M BaseKani A) (self : BaseKani).

Lemma through_snoc sts st self :
  Rounds.through (sts ++ [st]) self = transition st (Rounds.through sts self).
Proof. unfold Rounds.through. by rewrite foldl_app. Qed.

Lemma through_id sts self : id (Rounds.through sts self) = id self.
Proof.
  revert self. induction sts as [|st sts IH]; intros self; [done|].
  simpl. by rewrite IH.
Qed.

Lemma through_state sts self :
  state (Rounds.through sts self) = default (state self) (last sts).
Proof.
  induction sts as [|st sts IH] using rev_ind; [done|].
  by rewrite through_snoc, last_snoc.
Qed.

Lemma through_events sts self :
  App.event_queue (app (Rounds.through sts self))
  = (App.event_queue (app self) ++ (KaniStateChange (id self) <$> sts))%list.
Proof.
  induction sts as [|st sts IH] using rev_ind.
  - simpl. by rewrite app_nil_r.
  - rewrite through_snoc, transition_events, IH, through_id, fmap_app.
    by rewrite <- app_assoc.
Qed.

Lemma restored_cons old st sts :
  Rounds.restored old (st :: sts) = (Rounds.restored st sts ++ [old])%list.
Proof. unfold Rounds.restored. simpl. by rewrite reverse_cons. Qed.

Lemma restored_state st sts after :
  Forall (fun s => s ≠ ERRORED) (st :: sts) → state after ≠ ERRORED →
  state (Rounds.through (Rounds.restored st sts) after) ≠ ERRORED.
Proof.
  intros Hall Hafter. rewrite through_state.
  destruct sts as [|st' sts]; [done|].
  rewrite restored_cons, last_snoc. simpl. by inversion Hall.
Qed.

(** X1.  Scopes nested to any depth unwind last-in first-out.  When none
    of the nested target states is [ERRORED] and the innermost body returns
    or raises with the node not [ERRORED], the node ends in the state it
    had before the outermost scope; the events published on the way in are
    the target states outermost first, and the events published on the way
    out are the restored states innermost first, the original state
    last. *)
Theorem scopes_lifo sts body self r after :
  Forall (fun st => st ≠ ERRORED) sts →
  body (Rounds.through sts self) = (r, after) →
  r ≠ Blocked →
  state after ≠ ERRORED →
  Rounds.scopes sts body self
  = (r, Rounds.through (Rounds.restored (state self) sts) after)
  ∧ (sts ≠ [] →
     state (Rounds.through (Rounds.restored (state self) sts) after)
     = state self)
  ∧ App.event_queue (app (Rounds.through sts self))
    = (App.event_queue (app self) ++ (KaniStateChange (id self) <$> sts))%list
  ∧ App.event_queue
      (app (Rounds.through (Rounds.restored (state self) sts) after))
    = (App.event_queue (app after)
       ++ (KaniStateChange (id after)
             <$> Rounds.restored (state self) sts))%list.
Proof.
  intros Hsts Hbody Hr Hafter. split_and!.
  - revert self Hbody. induction sts as [|st sts IH]; intros self Hbody.
    + done.
    + simpl in *. inversion Hsts as [|? ? Hst Hrest]; subst.
      rewrite restored_cons, through_snoc.
      apply set_state_restores; [|done|].
      * rewrite (IH Hrest (transition st self) Hbody). done.
      * by apply restored_state.
  - intros Hne. rewrite through_state. destruct sts as [|st sts]; [done|].
    by rewrite restored_cons, last_snoc.
  - apply through_events.
  - apply through_events.
Qed.

(** X2.  [ERRORED] goes through every enclosing scope.  When the innermost
    body returns or raises with the node [ERRORED], no scope around it, at
    any depth, restores a state or publishes an event: the nest hands back
    the body's outcome and the node exactly as the body left it. *)
Theorem scopes_keep_errored sts body self r after :
  body (Rounds.through sts self) = (r, after) →
  state after = ERRORED →
  Rounds.scopes sts body self = (r, after).
Proof.
  revert self. induction sts as [|st sts IH]; intros self Hbody He; [done|].
  simpl in *. apply set_state_keeps_errored; [|done]. by apply IH.
Qed.

(** X3.  Whatever the body does, a nest of scopes that is left leaves the
    node in the state it had before, or [ERRORED]; in particular a node
    that is already [ERRORED] before the scope is [ERRORED] after it:
    [set_state] never brings a node out of [ERRORED]. *)
Theorem scopes_never_recover sts body self r final :
  sts ≠ [] →
  Rounds.scopes sts body self = (r, final) →
  r ≠ Blocked →
  (state final = state self ∨ state final = ERRORED)
  ∧ (state self = ERRORED → state final = ERRORED).
Proof.
  intros Hne Hrun Hr.
  assert (state final = state self ∨ state final = ERRORED) as Hcases.
  { destruct sts as [|st sts]; [done|]. simpl in Hrun.
    by eapply set_state_well_bracketed. }
  split; [done|]. intros He. destruct Hcases as [->|]; done.
Qed.

(** X4.  A chat round that ends by calling [blocked()] leaves the node
    [ERRORED]: the round returns the note of [blocked], the last event
    published is the change to [ERRORED], and the [RUNNING] scope of
    [chat_round] restores nothing. *)
Theorem chat_round_blocked {B} (pre : M BaseKani B) self b mid :
  pre (transition RUNNING self) = (Ret b, mid) →
  Rounds.chat_round (pre ;; blocked) self
  = (Ret "The block has been noted. Don't use this site for future queries.",
     transition ERRORED mid)
  ∧ state (transition ERRORED mid) = ERRORED
  ∧ App.event_queue (app (transition ERRORED mid))
    = (App.event_queue (app mid) ++ [KaniStateChange (id mid) ERRORED])%list.
Proof.
  intros Hpre. split; [|done]. unfold Rounds.chat_round.
  apply set_state_keeps_errored; [|done].
  by rewrite (bind_ret _ _ _ _ _ Hpre).
Qed.

End Nesting.

(** ** Recording messages *)

(** X5.  [add_to_history], over a base class that appends the message to
    the history: the history grows by the message at its end, one
    message event carrying it is queued, and the lookup
    [last_user_message] keeps its answer once it has one; on a history
    without user message it becomes the message if that is a user
    message. *)
Theorem add_to_history_appends
    (super_add_to_history : ChatMessage → M BaseKani unit)
    (message : ChatMessage) (self stored : BaseKani) :
  super_add_to_history message self = (Ret tt, stored) →
  chat_history stored = (chat_history self ++ [message])%list →
  let final := dispatch (KaniMessage (id stored) message) stored in
  Rounds.add_to_history super_add_to_history message self = (Ret tt, final)
  ∧ chat_history final = (chat_history self ++ [message])%list
  ∧ App.event_queue (app final)
    = (App.event_queue (app stored) ++ [KaniMessage (id stored) message])%list
  ∧ last_user_message final
    = match last_user_message self with
      | Some first => Some first
      | None => if decide (role message = USER) then Some message else None
      end.
Proof.
  intros Hsuper Hhist final. split_and!.
  - unfold Rounds.add_to_history. by rewrite (bind_ret _ _ _ _ _ Hsuper).
  - done.
  - done.
  - unfold last_user_message. subst final. simpl. rewrite Hhist.
    rewrite filter_app, filter_cons, filter_nil.
    destruct (filter _ (chat_history self)) as [|u us]; simpl.
    + by destruct (decide (role message = USER)).
    + done.
Qed.

(** ** The shared browser *)

Section Browser.

Implicit Types (app : App.Kanpai) (start : outcome string)
  (launch : string → outcome string).

(** A launched browser is handed out as it is: nothing is started or
    launched again. *)
Lemma get_browser_ready start launch app p b :
  App.playwright app = Some p → App.browser app = Some b →
  Resources.get_browser start launch app = (Ret (Some b), app).
Proof.
  intros Hp Hb. unfold Resources.get_browser.
  unfold mbind, M_bind, mret, M_ret, get. simpl. rewrite Hp, Hb. simpl.
  by rewrite Hb.
Qed.

(** X6.  [get_browser] creates at most once.  On an application with
    neither playwright nor browser, when both the start and the launch
    succeed, the call stores and returns the browser; every later call,
    whatever starting or launching would do, returns that same browser and
    changes nothing.  [close] then owes the browser and playwright releases
    as well. *)
Theorem get_browser_launches_once start launch app p b :
  App.playwright app = None → App.browser app = None →
  start = Ret p → launch p = Ret b →
  let app' :=
    Resources.with_browser (Some b)
      (Resources.with_playwright (Some p) app) in
  Resources.get_browser start launch app = (Ret (Some b), app')
  ∧ (∀ start' launch',
       Resources.get_browser start' launch' app' = (Ret (Some b), app'))
  ∧ App.owed app'
    = [App.CloseEngine; App.CloseLongEngine; App.CloseBrowser;
       App.StopPlaywright]
  ∧ App.event_queue app' = App.event_queue app
  ∧ App.release_log app' = App.release_log app.
Proof.
  intros Hp Hb Hstart Hlaunch app'. split_and!.
  - unfold Resources.get_browser, Resources.external.
    unfold mbind, M_bind, mret, M_ret, get, modify. simpl.
    rewrite Hp, Hstart. simpl. rewrite Hb, Hlaunch. done.
  - intros start' launch'. by apply (get_browser_ready _ _ _ p b).
  - done.
  - done.
  - done.
Qed.

(** X7.  When playwright starts and the launch raises, [get_browser] raises
    with playwright kept and no browser; a later call does not start
    playwright again and launches on the handle kept. *)
Theorem get_browser_retry_keeps_playwright start launch app p e :
  App.playwright app = None → App.browser app = None →
  start = Ret p → launch p = Raise e →
  let half := Resources.with_playwright (Some p) app in
  Resources.get_browser start launch app = (Raise e, half)
  ∧ App.browser half = None
  ∧ ∀ start' launch' b,
      launch' p = Ret b →
      Resources.get_browser start' launch' half
      = (Ret (Some b), Resources.with_browser (Some b) half).
Proof.
  intros Hp Hb Hstart Hlaunch half. split_and!.
  - unfold Resources.get_browser, Resources.external.
    unfold mbind, M_bind, mret, M_ret, get, modify. simpl.
    rewrite Hp, Hstart. simpl. rewrite Hb, Hlaunch. done.
  - done.
  - intros start' launch' b Hl.
    unfold Resources.get_browser, Resources.external.
    unfold mbind, M_bind, mret, M_ret, get, modify. simpl.
    rewrite Hb, Hl. done.
Qed.

(** A failed start leaves the application as it was. *)
Lemma get_browser_start_fails start launch app e :
  App.playwright app = None →
  start = Raise e →
  Resources.get_browser start launch app = (Raise e, app).
Proof.
  intros Hp Hstart. unfold Resources.get_browser, Resources.external.
  unfold mbind, M_bind, mret, M_ret, get, modify. simpl.
  by rewrite Hp, Hstart.
Qed.

End Browser.

(** ** Closing twice *)

Lemma close_all_ok fails app :
  Forall (fun r => fails r = false) (App.owed app) →
  App.close fails app
  = (Ret tt,
     App.mkKanpai (App.event_queue app) App.TaskCancelled
       (App.playwright app) (App.browser app)
       (App.release_log app ++ App.CancelDispatch :: App.owed app)%list).
Proof.
  destruct app as [q t pw br lg]. unfold App.owed. simpl. intros Hall.
  unfold App.close, App.cancel_dispatch_task, App.release.
  unfold mbind, M_bind, mret, M_ret, get. simpl.
  unfold App.log_release, App.with_dispatch_task. simpl.
  inversion Hall as [|? ? H1 Hall1]; subst. rewrite H1. simpl.
  inversion Hall1 as [|? ? H2 Hall2]; subst. rewrite H2. simpl.
  destruct br as [b|], pw as [p|]; simpl in *;
    repeat match goal with
      | H : Forall _ (_ :: _) |- _ => inversion H; clear H; subst
      end;
    repeat match goal with
      | H : fails _ = false |- _ => rewrite H; clear H
      end;
    simpl; by rewrite <- ?app_assoc.
Qed.

(** X8.  [close] resets no handle, so it is not idempotent: when no release
    fails, a second [close] returns as well, and repeats every release of
    the first, the browser and playwright ones included. *)
Theorem close_twice_releases_twice fails app :
  Forall (fun r => fails r = false) (App.owed app) →
  let once := (App.close fails app).2 in
  let twice := (App.close fails once).2 in
  (App.close fails app).1 = Ret tt
  ∧ (App.close fails once).1 = Ret tt
  ∧ App.browser once = App.browser app
  ∧ App.playwright once = App.playwright app
  ∧ App.release_log twice
    = (App.release_log app
       ++ (App.CancelDispatch :: App.owed app)
       ++ (App.CancelDispatch :: App.owed app))%list.
Proof.
  intros Hall. simpl. rewrite (close_all_ok fails app Hall). simpl.
  rewrite close_all_ok by done. simpl. split_and!; try done.
  unfold App.owed. simpl. by rewrite <- app_assoc.
Qed.

(** ** A cancelled dispatch loop *)

(** X9.  Once the dispatch task is cancelled, no schedule makes the loop
    take another event: what was taken stays as it is, the task stays
    cancelled, and events published afterwards pile up in the queue behind
    the ones there. *)
Theorem cancelled_loop_takes_nothing {L : Type} (acts : list App.Action)
    (app : App.Kanpai) (obs : App.Observed L) :
  App.dispatch_task app = App.TaskCancelled →
  let st := App.run acts (app, obs) in
  App.taken st.2 = App.taken obs
  ∧ App.event_queue st.1
    = (App.event_queue app ++ App.published acts)%list
  ∧ App.dispatch_task st.1 = App.TaskCancelled.
Proof.
  simpl. revert app obs. induction acts as [|a acts IH]; intros app obs Hc.
  - simpl. by rewrite app_nil_r.
  - unfold App.run in *. simpl. destruct a as [e| |]; simpl.
    + destruct (IH (App.dispatch e app) obs Hc) as (-> & -> & ->).
      simpl. by rewrite <- app_assoc.
    + unfold App._dispatch_task_turn. rewrite Hc. by apply IH.
    + by destruct (IH (App.with_dispatch_task App.TaskCancelled app) obs
                     eq_refl) as (-> & -> & ->).
Qed.

(** ** More on delegating and waiting *)

Section MoreWaiting.

Variable repr : string → string.
Variable ratio : string → option string → Q.
Variable create_delegate_kani : M BaseKani Helper.
Variable full_round : Helper → string → Round.

(** X10.  [wait] on a name that is not pending, and is neither ["next"] nor
    ["all"], returns the usage message and touches nothing: no state
    change, no event. *)
Theorem wait_unknown_name (until : string) (done : list Future) self :
  helper_futures self !! until = None →
  until ≠ "next" → until ≠ "all" →
  wait full_round until done self = (Ret usage, self).
Proof.
  intros Hnone Hnext Hall. unfold wait.
  unfold mbind at 1, M_bind at 1, get.
  rewrite bool_decide_eq_true_2 by done.
  rewrite bool_decide_eq_true_2; [done|].
  intros Hin. apply elem_of_cons in Hin as [?|Hin]; [done|].
  by apply list_elem_of_singleton in Hin.
Qed.

Lemma wait_named_unfold (until : string) done self f :
  helper_futures self !! until = Some f →
  until ≠ "next" → until ≠ "all" →
  wait full_round until done self
  = ('(result, _) ← set_state WAITING (await full_round f);
     mret (block until result))
      (with_helper_futures (delete until (helper_futures self)) self).
Proof.
  intros Hf Hnext Hall. unfold wait.
  unfold mbind at 1, M_bind at 1, get.
  rewrite bool_decide_eq_false_2 by (by rewrite Hf). simpl.
  rewrite !decide_False by done.
  unfold mbind at 1, M_bind at 1, pop. by rewrite Hf.
Qed.

Lemma wait_named_returns (until : string) done self f t text name :
  helper_futures self !! until = Some f →
  until ≠ "next" → until ≠ "all" →
  _task full_round f = TaskDone t (text, name) →
  wait full_round until done self
  = (Ret (block until text),
     waited (with_helper_futures (delete until (helper_futures self)) self)).
Proof.
  intros Hf Hnext Hall Htask. rewrite (wait_named_unfold _ _ _ f) by done.
  rewrite (bind_ret _ _ _ (text, name)
             (waited (with_helper_futures
                        (delete until (helper_futures self)) self)));
    [done|].
  apply set_state_waiting_pure; [|done].
  intros s. unfold await. by rewrite Htask.
Qed.

(** X11.  [wait] on the name of a pending task removes the name from
    [helper_futures] before it waits.  If the task ends with a result the
    call returns the block of that name; if the task raised, the exception
    comes out of [wait]; if the task never ends, the call stays suspended
    in [WAITING].  In the first two cases the node is back in its state,
    and in all three the name is no longer pending while every other name
    is, and [helpers] is untouched. *)
Theorem wait_named (until : string) done self f :
  helper_futures self !! until = Some f →
  until ≠ "next" → until ≠ "all" →
  let reserved :=
    with_helper_futures (delete until (helper_futures self)) self in
  (∀ t text name,
     _task full_round f = TaskDone t (text, name) →
     wait full_round until done self
     = (Ret (block until text), waited reserved))
  ∧ (∀ t e,
     _task full_round f = TaskRaised t e →
     wait full_round until done self = (Raise e, waited reserved))
  ∧ (_task full_round f = TaskPending →
     wait full_round until done self
     = (Blocked, transition WAITING reserved))
  ∧ helper_futures (waited reserved) !! until = None
  ∧ (∀ other, other ≠ until →
       helper_futures (waited reserved) !! other
       = helper_futures self !! other)
  ∧ helpers (waited reserved) = helpers self
  ∧ state (waited reserved) = state self.
Proof.
  intros Hf Hnext Hall reserved. split_and!.
  - intros t text name Htask. by eapply wait_named_returns.
  - intros t e Htask. rewrite (wait_named_unfold _ _ _ f) by done.
    apply bind_raise. apply set_state_waiting_pure; [|done].
    intros s. unfold await. by rewrite Htask.
  - intros Htask. rewrite (wait_named_unfold _ _ _ f) by done.
    apply bind_blocked. apply set_state_waiting_blocked.
    intros s. unfold await. by rewrite Htask.
  - simpl. apply lookup_delete_eq.
  - intros other Hother. simpl. by apply lookup_delete_ne.
  - done.
  - done.
Qed.

(** X12.  When the task [wait("next")] pops from the finished set raised,
    the exception comes out of [wait] and [helper_futures] is unchanged:
    the failed task is still pending under its name. *)
Theorem wait_next_failed_task_stays self done future t e :
  done_set full_round (values self) FIRST_COMPLETED done →
  head done = Some future →
  _task full_round future = TaskRaised t e →
  wait full_round "next" done self = (Raise e, waited self)
  ∧ helper_futures (waited self) = helper_futures self
  ∧ (∃ k, helper_futures (waited self) !! k = Some future).
Proof.
  intros (_ & _ & t0 & Hdone) Hhead Htask.
  destruct done as [|f rest]; [done|]. injection Hhead as ->.
  destruct (Hdone future) as [Hin _].
  destruct Hin as [Hin Hfin]; [by left|].
  apply finished_by_finished in Hfin. split_and!.
  - rewrite wait_next_unfold.
    erewrite bind_ret;
      [|apply set_state_waiting_pure;
        [intros s; by eapply asyncio_wait_first|done]].
    unfold future_result. rewrite Htask. done.
  - done.
  - by apply elem_of_values in Hin.
Qed.

Lemma collect_raises {S} (ok : list Future) f rest t e :
  Forall (fun g => ∃ t' r, _task full_round g = TaskDone t' r) ok →
  _task full_round f = TaskRaised t e →
  ∀ s : S, collect full_round (ok ++ f :: rest) s = (Raise e, s).
Proof.
  intros Hok Htask. induction ok as [|g ok IH]; intros s; simpl.
  - unfold future_result. rewrite Htask. done.
  - inversion Hok as [|? ? (t' & [text name'] & Hg) Hrest]; subst.
    unfold future_result at 1. rewrite Hg.
    unfold mbind, M_bind, mret, M_ret in *. simpl. by rewrite IH.
Qed.

(** X13.  When a task raised, [wait("all")] lets the exception of the
    first such task in the iteration order out and clears nothing:
    [helper_futures] is unchanged, the results gathered so far are
    dropped. *)
Theorem wait_all_failed_task_keeps_pending self done ok f rest t e :
  helper_futures self ≠ ∅ →
  done_set full_round (values self) ALL_COMPLETED done →
  Forall (fun g => finished full_round g = true) (values self) →
  done = (ok ++ f :: rest)%list →
  Forall (fun g => ∃ t' r, _task full_round g = TaskDone t' r) ok →
  _task full_round f = TaskRaised t e →
  wait full_round "all" done self = (Raise e, waited self)
  ∧ helper_futures (waited self) = helper_futures self.
Proof.
  intros Hne Hdone Hfin -> Hok Htask. split; [|done].
  rewrite wait_all_unfold.
  erewrite bind_ret;
    [|apply set_state_waiting_pure;
      [intros s; apply asyncio_wait_all;
        [by apply values_nonempty|done]|done]].
  apply bind_raise. by eapply collect_raises.
Qed.

(** *** Starting work *)

Lemma known_helper_None who self :
  known_helper who self = None
  ↔ who = None ∨ who = Some ""
    ∨ ∃ w, who = Some w ∧ helpers self !! w = None.
Proof.
  unfold known_helper. destruct who as [w|]; [|by split; auto].
  destruct (decide (w = "")) as [->|Hw]; [by split; auto|].
  destruct (helpers self !! w) as [h|] eqn:Hh; simpl.
  - split; [done|]. intros [?|[[= ?]|(w' & [= <-] & Hn)]]; congruence.
  - split; [|done]. intros _. right. right. by exists w.
Qed.

(** The node once [helper] is registered and at work on [instructions]. *)
(** X14.  [delegate] without a usable [who] (omitted, empty, or not the
    name of a helper), the loop guard silent and the helper created: the
    new helper is registered under its name in [helpers], its task on the
    instructions is registered under the same name in [helper_futures],
    and the acknowledgement names it.  The helper is then busy: a further
    [delegate] to its name that the loop guard lets through is refused
    and changes nothing. *)
Theorem delegate_new_helper instructions who self helper created :
  near_duplicate ratio instructions self = false →
  who = None ∨ who = Some ""
  ∨ (∃ w, who = Some w ∧ helpers self !! w = None) →
  create_delegate_kani self = (Ret helper, created) →
  let n := helper_name helper in
  let final :=
    with_helper_futures
      (<[n := mkFuture helper instructions]> (helper_futures created))
      (with_helpers (<[n := helper]> (helpers created)) created) in
  delegate repr ratio create_delegate_kani instructions who self
  = (Ret (repr n +:+ " is helping you with this request."), final)
  ∧ helpers final !! n = Some helper
  ∧ helper_futures final !! n = Some (mkFuture helper instructions)
  ∧ (n ≠ "" →
     ∀ again, near_duplicate ratio again final = false →
       delegate repr ratio create_delegate_kani again (Some n) final
       = (Ret (busy repr n), final)).
Proof.
  intros Hdup Hwho Hcreate n final.
  apply known_helper_None in Hwho. split_and!.
  - unfold delegate. unfold mbind at 1, M_bind at 1, get. rewrite Hdup.
    rewrite Hwho. unfold mbind, M_bind, mret, M_ret, modify.
    by rewrite Hcreate.
  - simpl. apply lookup_insert_eq.
  - simpl. apply lookup_insert_eq.
  - intros Hn again Hagain.
    unfold delegate. unfold mbind at 1, M_bind at 1, get. rewrite Hagain.
    unfold known_helper. rewrite decide_False by done.
    subst final. simpl. rewrite lookup_insert_eq. simpl.
    rewrite decide_True; [done|]. rewrite lookup_insert_eq. by eexists.
Qed.

Lemma delegate_reuse instructions w self helper :
  near_duplicate ratio instructions self = false →
  w ≠ "" →
  helpers self !! w = Some helper →
  helper_futures self !! w = None →
  delegate repr ratio create_delegate_kani instructions (Some w) self
  = (Ret (repr (helper_name helper) +:+ " is helping you with this request."),
     with_helper_futures
       (<[helper_name helper := mkFuture helper instructions]>
          (helper_futures self)) self).
Proof.
  intros Hdup Hw Hh Hidle.
  unfold delegate. unfold mbind at 1, M_bind at 1, get. rewrite Hdup.
  unfold known_helper. rewrite decide_False by done. rewrite Hh. simpl.
  rewrite decide_False; [done|]. rewrite Hidle. by intros [? ?].
Qed.

(** X15.  [delegate] to the name of a known helper without pending work,
    the loop guard silent: no helper is created, whatever
    [create_delegate_kani] would do; the only change to the node is the
    helper's new task in [helper_futures]. *)
Theorem delegate_reuses_idle_helper instructions w self helper :
  near_duplicate ratio instructions self = false →
  w ≠ "" →
  helpers self !! w = Some helper →
  helper_futures self !! w = None →
  let n := helper_name helper in
  let final :=
    with_helper_futures
      (<[n := mkFuture helper instructions]> (helper_futures self)) self in
  delegate repr ratio create_delegate_kani instructions (Some w) self
  = (Ret (repr n +:+ " is helping you with this request."), final)
  ∧ helpers final = helpers self
  ∧ app final = app self
  ∧ helper_futures final !! n = Some (mkFuture helper instructions).
Proof.
  intros Hdup Hw Hh Hidle n final. split_and!; try done.
  - by apply delegate_reuse.
  - simpl. apply lookup_insert_eq.
Qed.

(** Ask an idle helper, then wait for it by name. *)
(** X16.  Asking an idle helper and waiting for it by name is a round
    trip: the wait returns the block made of the helper's name and of the
    non-empty assistant texts of its run, joined by line feeds, and the
    node is back with the pending work and the helpers it had before the
    request. *)
Theorem delegate_then_wait instructions w self helper t msgs done :
  consistent self →
  near_duplicate ratio instructions self = false →
  w ≠ "" → w ≠ "next" → w ≠ "all" →
  helpers self !! w = Some helper →
  helper_futures self !! w = None →
  full_round helper instructions = Yielded t msgs →
  ∃ asked final,
    delegate repr ratio create_delegate_kani instructions (Some w) self
    = (Ret (repr w +:+ " is helping you with this request."), asked)
    ∧ wait full_round w done asked
      = (Ret (block w (String.concat LF (omap assistant_text msgs))), final)
    ∧ helper_futures final = helper_futures self
    ∧ helpers final = helpers self
    ∧ state final = state self.
Proof.
  intros (Hnames & _ & _) Hdup Hw Hnext Hall Hh Hidle Hround.
  pose proof (Hnames _ _ Hh) as Hname.
  pose proof (delegate_reuse instructions w self helper
                Hdup Hw Hh Hidle) as Hrun.
  rewrite Hname in Hrun. eexists _, _. split; [exact Hrun|].
  set (asked := with_helper_futures _ self).
  assert (helper_futures asked !! w
          = Some (mkFuture helper instructions)) as Hasked
    by (subst asked; simpl; apply lookup_insert_eq).
  split_and!.
  - eapply (wait_named_returns w done asked _ t); [done..|].
    unfold _task. simpl. rewrite Hround. reflexivity.
  - subst asked. simpl. rewrite delete_insert_eq. by apply delete_id.
  - done.
  - done.
Qed.

(** *** Any sequence of calls *)

(** X17.  The shape of the two dictionaries is an invariant: as long as
    creating a helper keeps it, it holds after any sequence of [delegate]
    and [wait] calls, whatever they return or raise.  Helpers and tasks are
    stored under the helper's name, and every pending name is the name of
    a helper. *)
Theorem after_calls_consistent (cs : list Calls.Call) self :
  (∀ s r s', create_delegate_kani s = (r, s') →
             consistent s → consistent s') →
  consistent self →
  consistent
    (Calls.after_calls repr ratio create_delegate_kani full_round cs self).
Proof.
  intros Hcreate. revert self.
  induction cs as [|c cs IH]; intros self Hself; [done|].
  unfold Calls.after_calls in *. simpl. apply IH.
  destruct (Calls.call repr ratio create_delegate_kani full_round c self)
    as [r final] eqn:Hcall. simpl.
  destruct c as [instructions who|until done]; simpl in Hcall.
  - by eapply delegate_consistent.
  - by eapply wait_consistent.
Qed.

End MoreWaiting.

(** ** Pages of a browsing node *)

Section Pages.

Import BrowsingMixin.

Variable start : outcome string.
Variable launch : string → outcome string.
Variable new_page : string → outcome string.
Variable close_fails : string → bool.

Lemma on_app_unchanged {A} (m : M App.Kanpai A) (r : outcome A) self :
  m (app (node self)) = (r, app (node self)) →
  on_app m self = (r, self).
Proof.
  intros Hm. unfold on_app. rewrite Hm.
  by destruct self as [[] ? ?].
Qed.

(** X18.  [get_page] opens at most one page.  Without [create] it returns
    the current page, if any, and changes nothing; with a page it returns
    that page, with or without [create]; without one and with [create], on
    a launched browser, it opens a page, stores and returns it, and every
    later call returns that page whatever opening would do. *)
Theorem get_page_lazy self :
  get_page start launch new_page false self = (Ret (page self), self)
  ∧ (∀ create p, page self = Some p →
       get_page start launch new_page create self = (Ret (Some p), self))
  ∧ (∀ pw b p,
       page self = None →
       App.playwright (app (node self)) = Some pw →
       App.browser (app (node self)) = Some b →
       new_page b = Ret p →
       get_page start launch new_page true self
       = (Ret (Some p), with_page (Some p) self)
       ∧ ∀ create start' launch' new_page',
           get_page start' launch' new_page' create (with_page (Some p) self)
           = (Ret (Some p), with_page (Some p) self)).
Proof.
  assert (∀ create p s st la np, page s = Some p →
            get_page st la np create s = (Ret (Some p), s)) as Hhave.
  { intros create p s st la np Hp. unfold get_page.
    unfold mbind, M_bind, mret, M_ret, get. simpl.
    rewrite bool_decide_eq_false_2 by (by rewrite Hp). simpl.
    by rewrite Hp. }
  split_and!.
  - unfold get_page. unfold mbind, M_bind, mret, M_ret, get. simpl.
    by rewrite andb_false_r.
  - intros create p Hp. by apply Hhave.
  - intros pw b p Hnone Hpw Hb Hnew. split.
    + unfold get_page. unfold mbind at 1, M_bind at 1, get.
      rewrite bool_decide_eq_true_2 by done. simpl.
      unfold mbind at 1, M_bind at 1. unfold mbind at 1, M_bind at 1.
      rewrite (on_app_unchanged _ (Ret (Some b)))
        by (by apply (get_browser_ready _ _ _ pw b)).
      unfold Resources.external, mbind, M_bind, mret, M_ret, modify, get.
      by rewrite Hnew.
    + intros create start' launch' new_page'. by apply Hhave.
Qed.

(** X19.  [BrowsingMixin.cleanup] is idempotent when closing succeeds: the
    page, if there is one, is closed once and forgotten, the node is
    untouched, and a second [cleanup] changes nothing. *)
Theorem cleanup_closes_once self :
  (∀ p, page self = Some p → close_fails p = false) →
  let once := (cleanup close_fails self).2 in
  (cleanup close_fails self).1 = Ret tt
  ∧ page once = None
  ∧ node once = node self
  ∧ closed_pages once
    = (closed_pages self ++ (if page self is Some p then [p] else []))%list
  ∧ cleanup close_fails once = (Ret tt, once).
Proof.
  intros Hok. unfold cleanup, close_page.
  unfold mbind, M_bind, mret, M_ret, get, modify. simpl.
  destruct (page self) as [p|] eqn:Hp; simpl.
  - rewrite (Hok p eq_refl). simpl. done.
  - rewrite Hp. simpl. by rewrite app_nil_r.
Qed.

(** X20.  When closing the page raises, [cleanup] raises and the page is
    not forgotten: the next [cleanup] calls [close()] on the same page
    again. *)
Theorem cleanup_failure_keeps_page self p :
  page self = Some p → close_fails p = true →
  let failed := (cleanup close_fails self).2 in
  (cleanup close_fails self).1 = Raise (ExternalError "close failed")
  ∧ page failed = Some p
  ∧ closed_pages failed = (closed_pages self ++ [p])%list
  ∧ closed_pages (cleanup close_fails failed).2
    = (closed_pages self ++ [p; p])%list.
Proof.
  intros Hp Hfail. unfold cleanup, close_page.
  unfold mbind, M_bind, mret, M_ret, get, modify. simpl.
  rewrite Hp. simpl. rewrite Hfail. simpl. rewrite Hp. simpl.
  rewrite Hfail. simpl. by rewrite <- app_assoc.
Qed.

End Pages.

(** ** Article search *)

Section Search.

Import FanOutQAMixin.

Variable strip : string → string.
Variable lower : string → string.
Variable format : string → string → string.
Variable wiki_search : string → list Article.
Variable wiki_content : Article → string.
Variable best : Article → option string → list string.
Variable message_token_len : Engine → ChatMessage → nat.
Variable last_user_message : list ChatMessage → option ChatMessage.

Lemma append_assoc (a b c : string) : (a +:+ b) +:+ c = a +:+ (b +:+ c).
Proof.
  induction a as [|x a IH]; [done|].
  change (String x ((a +:+ b) +:+ c) = String x (a +:+ (b +:+ c))).
  by rewrite IH.
Qed.

Lemma concat_empty_snoc (l : list string) (x : string) :
  String.concat "" (l ++ [x]) = String.concat "" l +:+ x.
Proof.
  induction l as [|y l IH]; [done|].
  destruct l as [|z l]; [done|].
  change (String.concat "" ((y :: z :: l) ++ [x]))
    with (y +:+ String.concat "" ((z :: l) ++ [x])).
  rewrite IH.
  change (String.concat "" (y :: z :: l))
    with (y +:+ String.concat "" (z :: l)).
  by rewrite append_assoc.
Qed.

Lemma concat_empty_app (l l' : list string) :
  String.concat "" (l ++ l') = String.concat "" l +:+ String.concat "" l'.
Proof.
  induction l' as [|x l' IH] using rev_ind.
  - rewrite app_nil_r. simpl.
    induction (String.concat "" l) as [|c s IHs]; [done|].
    change (String c s = String c (s +:+ "")). by rewrite <- IHs.
  - by rewrite app_assoc, !concat_empty_snoc, IH, append_assoc.
Qed.

Lemma retrieve_prefix self template docs (taken : list string) :
  ∃ n,
    (n ≤ length docs)%nat
    ∧ retrieve format self template docs (fragment <$> taken)
      = fragment <$> (taken ++ take n docs)%list
    ∧ (∀ k, (k < n)%nat →
         fits format self template (taken ++ take (S k) docs)%list)
    ∧ ((n < length docs)%nat →
       ¬ fits format self template (taken ++ take (S n) docs)%list).
Proof.
  revert taken. induction docs as [|doc docs IH]; intros taken.
  - exists 0. simpl. rewrite app_nil_r. split_and!; [done|done|lia|lia].
  - simpl.
    assert (String.concat "" (fragment <$> taken) +:+ fragment doc
            = String.concat "" (fragment <$> (taken ++ [doc])%list)) as Hcat
      by (rewrite fmap_app; change (fragment <$> [doc]) with [fragment doc];
          by rewrite concat_empty_snoc).
    rewrite Hcat.
    destruct (decide (_ < _)%nat) as [Hbig|Hfit].
    + exists 0. simpl. rewrite app_nil_r. split_and!; [lia|done|lia|].
      intros _. unfold fits. rewrite take_0. lia.
    + destruct (IH (taken ++ [doc])%list)
        as (n & Hn & Hrun & Hfits & Hstop).
      exists (S n). split_and!.
      * lia.
      * rewrite fmap_app in Hrun.
        change (fragment <$> [doc]) with [fragment doc] in Hrun.
        rewrite Hrun. simpl. by rewrite <- app_assoc.
      * intros k Hk. destruct k as [|k].
        -- simpl. rewrite take_0. unfold fits. simpl in *. lia.
        -- change (take (S (S k)) (doc :: docs))
             with (doc :: take (S k) docs).
           replace (taken ++ doc :: take (S k) docs)%list
             with ((taken ++ [doc]) ++ take (S k) docs)%list
             by (by rewrite <- app_assoc).
           apply Hfits. lia.
      * intros Hlt.
        change (take (S (S n)) (doc :: docs)) with (doc :: take (S n) docs).
        replace (taken ++ doc :: take (S n) docs)%list
          with ((taken ++ [doc]) ++ take (S n) docs)%list
          by (by rewrite <- app_assoc).
        apply Hstop. simpl in Hlt. lia.
Qed.

Lemma found_Some query matches a :
  found lower query matches = Some a
  ↔ ∃ before after,
      matches = (before ++ a :: after)%list
      ∧ lower (title a) = lower query
      ∧ Forall (fun m => lower (title m) ≠ lower query) before.
Proof.
  unfold found.
  apply (head_filter_Some (fun m => lower (title m) = lower query)).
Qed.

Lemma found_None query matches :
  found lower query matches = None
  ↔ Forall (fun m => lower (title m) ≠ lower query) matches.
Proof.
  unfold found. rewrite head_None.
  induction matches as [|m matches IH]; [done|].
  rewrite filter_cons, Forall_cons.
  destruct (decide (lower (title m) = lower query)); [|tauto].
  split; [done|]. by intros [? _].
Qed.

(** X21.  When no search result has the stripped query as its title, up
    to case, [search] returns the no-page message listing every result's
    title, and dispatches no event and changes no engine. *)
Theorem search_no_match query self :
  Forall (fun m => lower (title m) ≠ lower (strip query))
         (wiki_search (strip query)) →
  search strip lower format wiki_search wiki_content best message_token_len
         last_user_message query self
  = (Ret (no_page (title <$> wiki_search (strip query))), self).
Proof.
  intros Hnone%found_None. unfold search. by rewrite Hnone.
Qed.

(** X22.  [search] takes the first result whose title is the stripped
    query up to case.  Whatever happens next, exactly one
    [ArticleRetrieved] event, for that article, has been dispatched; and
    when the whole article fits half the context of the node's engine,
    the call returns the whole article and leaves the engine alone. *)
Theorem search_first_match query self before a after :
  wiki_search (strip query) = (before ++ a :: after)%list →
  lower (title a) = lower (strip query) →
  Forall (fun m => lower (title m) ≠ lower (strip query)) before →
  let run :=
    search strip lower format wiki_search wiki_content best message_token_len
           last_user_message query self in
  dispatched run.2 = (dispatched self ++ [retrieved self a])%list
  ∧ ((message_token_len (engine self)
        (user (full_content format wiki_content a))
      ≤ max_search_tokens self)%nat →
     run = (Ret (full_content format wiki_content a),
            dispatch (retrieved self a) self)).
Proof.
  intros Hmatches Htitle Hbefore run.
  assert (found lower (strip query) (wiki_search (strip query)) = Some a)
    as Hfound by (apply found_Some; eauto).
  subst run. unfold search. rewrite Hfound.
  unfold mbind, M_bind, mret, M_ret, get, modify, raise. simpl.
  fold (full_content format wiki_content a). fold (retrieved self a).
  destruct (decide (message_token_len (engine self) _ ≤ _)%nat)
    as [Hfit|Hbig].
  - split; [done|]. done.
  - split; [|intros ?; by destruct Hbig]. simpl.
    destruct (decide (_ ≤ _)%nat); [done|].
    by destruct (last_user_message (chat_history self)).
Qed.

(** X23.  When the article does not fit half the context of the node's
    engine, [search] moves the node to the application's long engine and
    leaves it there, however the call ends; if the article fits half the
    long engine's context the call returns the whole article. *)
Theorem search_upgrade_is_kept query self a :
  found lower (strip query) (wiki_search (strip query)) = Some a →
  ¬ (message_token_len (engine self)
       (user (full_content format wiki_content a))
     ≤ max_search_tokens self)%nat →
  let run :=
    search strip lower format wiki_search wiki_content best message_token_len
           last_user_message query self in
  let upgraded :=
    with_engine (long_engine self) (dispatch (retrieved self a) self) in
  run.2 = upgraded
  ∧ engine run.2 = long_engine self
  ∧ ((message_token_len (long_engine self)
        (user (full_content format wiki_content a))
      ≤ max_context_size (long_engine self) / 2)%nat →
     run.1 = Ret (full_content format wiki_content a)).
Proof.
  intros Hfound Hbig run upgraded. subst run. unfold search. rewrite Hfound.
  unfold mbind, M_bind, mret, M_ret, get, modify, raise. simpl.
  fold (full_content format wiki_content a). fold (retrieved self a).
  rewrite decide_False by done. simpl.
  unfold max_search_tokens at 1 3. simpl.
  destruct (decide (_ ≤ _)%nat) as [Hfit|Hbig']; [done|].
  destruct (last_user_message (chat_history self)); done.
Qed.

(** X24.  When the article fits neither engine, [search] answers with the
    longest run of best-ranked fragments that fits: the answer holds the
    first [n] fragments of the ranking, every non-empty shorter run and
    the run itself pass the budget check of the long engine, and if a
    fragment was left out, the run with the next one fails it. *)
Theorem search_packs_fragments query self a m :
  found lower (strip query) (wiki_search (strip query)) = Some a →
  ¬ (message_token_len (engine self)
       (user (full_content format wiki_content a))
     ≤ max_search_tokens self)%nat →
  ¬ (message_token_len (long_engine self)
       (user (full_content format wiki_content a))
     ≤ max_context_size (long_engine self) / 2)%nat →
  last_user_message (chat_history self) = Some m →
  let upgraded :=
    with_engine (long_engine self) (dispatch (retrieved self a) self) in
  let docs := best a (content m) in
  ∃ n,
    (n ≤ length docs)%nat
    ∧ search strip lower format wiki_search wiki_content best
             message_token_len last_user_message query self
      = (Ret (format (prompt (title a))
                (String.concat "" (fragment <$> take n docs))),
         upgraded)
    ∧ (∀ k, (0 < k ≤ n)%nat →
         fits format upgraded (prompt (title a)) (take k docs))
    ∧ ((n < length docs)%nat →
       ¬ fits format upgraded (prompt (title a)) (take (S n) docs)).
Proof.
  intros Hfound Hbig Hbig' Hm upgraded docs.
  destruct (retrieve_prefix upgraded (prompt (title a)) docs [])
    as (n & Hn & Hrun & Hfits & Hstop).
  exists n. split_and!.
  - done.
  - unfold search. rewrite Hfound.
    unfold mbind, M_bind, mret, M_ret, get, modify, raise. simpl.
    fold (full_content format wiki_content a). fold (retrieved self a).
    rewrite decide_False by done. simpl.
    unfold max_search_tokens at 1. simpl.
    rewrite decide_False by done. rewrite Hm.
    fold upgraded. fold docs. change [] with (fragment <$> []).
    by rewrite Hrun.
  - intros k [Hk0 Hk]. destruct k as [|k]; [lia|].
    apply (Hfits k). lia.
  - done.
Qed.

(** X25.  When the article fits neither engine and the history has no
    user message, [search] raises on the missing message; by then it has
    dispatched the event and moved the node to the long engine. *)
Theorem search_without_user_message query self a :
  found lower (strip query) (wiki_search (strip query)) = Some a →
  ¬ (message_token_len (engine self)
       (user (full_content format wiki_content a))
     ≤ max_search_tokens self)%nat →
  ¬ (message_token_len (long_engine self)
       (user (full_content format wiki_content a))
     ≤ max_context_size (long_engine self) / 2)%nat →
  last_user_message (chat_history self) = None →
  search strip lower format wiki_search wiki_content best message_token_len
         last_user_message query self
  = (Raise (ExternalError "'NoneType' has no attribute 'text'"),
     with_engine (long_engine self) (dispatch (retrieved self a) self)).
Proof.
  intros Hfound Hbig Hbig' Hm. unfold search. rewrite Hfound.
  unfold mbind, M_bind, mret, M_ret, get, modify, raise. simpl.
  fold (full_content format wiki_content a). fold (retrieved self a).
  rewrite decide_False by done. simpl.
  unfold max_search_tokens at 1. simpl.
  rewrite decide_False by done. by rewrite Hm.
Qed.

End Search.

(** ** The further properties on the sample inputs *)

(** Witness of [scopes_lifo]: a run that waits and runs again inside. *)
Lemma scopes_lifo_witness :
  Rounds.scopes [RUNNING; WAITING; RUNNING] (mret tt) (Samples.root [])
  = (Ret tt,
     Rounds.through [WAITING; RUNNING; STOPPED]
       (Rounds.through [RUNNING; WAITING; RUNNING] (Samples.root []))).
Proof.
  destruct (scopes_lifo [RUNNING; WAITING; RUNNING] (mret tt)
              (Samples.root []) (Ret tt)
              (Rounds.through [RUNNING; WAITING; RUNNING] (Samples.root [])))
    as [Hrun _].
  - repeat constructor; discriminate.
  - reflexivity.
  - discriminate.
  - discriminate.
  - exact Hrun.
Defined.

(** Witness of [scopes_keep_errored]: the page blocks inside a wait inside
    a run. *)
Lemma scopes_keep_errored_witness :
  Rounds.scopes [RUNNING; WAITING] blocked (Samples.root [])
  = (Ret "The block has been noted. Don't use this site for future queries.",
     Rounds.through [RUNNING; WAITING; ERRORED] (Samples.root [])).
Proof.
  apply (scopes_keep_errored [RUNNING; WAITING] blocked (Samples.root [])).
  - reflexivity.
  - reflexivity.
Defined.

(** Witness of [scopes_never_recover]: an errored node runs a round. *)
Lemma scopes_never_recover_witness :
  state (Rounds.scopes [RUNNING] (mret tt) MoreSamples.errored).2 = ERRORED.
Proof.
  destruct (scopes_never_recover [RUNNING] (mret tt) MoreSamples.errored
              (Ret tt)
              (Rounds.scopes [RUNNING] (mret tt) MoreSamples.errored).2)
    as [_ Hstays].
  - discriminate.
  - reflexivity.
  - discriminate.
  - apply Hstays. reflexivity.
Defined.

(** Witness of [chat_round_blocked]. *)
Lemma chat_round_blocked_witness :
  state (Rounds.chat_round (mret tt;; blocked) (Samples.root [])).2 = ERRORED.
Proof.
  destruct (chat_round_blocked (mret tt) (Samples.root []) tt
              (transition RUNNING (Samples.root []))) as (Hrun & Hstate & _).
  - reflexivity.
  - rewrite Hrun. exact Hstate.
Defined.

(** Witness of [add_to_history_appends]: a third user turn is recorded, the
    lookup still answers with the first. *)
Lemma add_to_history_appends_witness :
  last_user_message
    (Rounds.add_to_history Rounds.kani_add_to_history
       (Samples.user "and a taxi") (Samples.root Samples.two_turns)).2
  = Some (Samples.user "plan a trip to Kyoto").
Proof.
  destruct (add_to_history_appends Rounds.kani_add_to_history
              (Samples.user "and a taxi") (Samples.root Samples.two_turns)
              (Rounds.with_chat_history
                 (Samples.two_turns ++ [Samples.user "and a taxi"])
                 (Samples.root Samples.two_turns)))
    as (Hrun & _ & _ & Hlast).
  - reflexivity.
  - reflexivity.
  - rewrite Hrun. exact Hlast.
Defined.

(** Witness of [get_browser_launches_once]. *)
Lemma get_browser_launches_once_witness :
  Resources.get_browser MoreSamples.started MoreSamples.launched App.new
  = (Ret (Some "chromium"),
     Resources.with_browser (Some "chromium")
       (Resources.with_playwright (Some "playwright") App.new)).
Proof.
  destruct (get_browser_launches_once MoreSamples.started
              MoreSamples.launched App.new "playwright" "chromium")
    as [Hrun _]; [reflexivity..|exact Hrun].
Defined.

(** Witness of [get_browser_retry_keeps_playwright]. *)
Lemma get_browser_retry_keeps_playwright_witness :
  Resources.get_browser MoreSamples.started MoreSamples.launch_fails App.new
  = (Raise (ExternalError "no display"),
     Resources.with_playwright (Some "playwright") App.new).
Proof.
  destruct (get_browser_retry_keeps_playwright MoreSamples.started
              MoreSamples.launch_fails App.new "playwright"
              (ExternalError "no display"))
    as [Hrun _]; [reflexivity..|exact Hrun].
Defined.

(** Witness of [close_twice_releases_twice]. *)
Lemma close_twice_releases_twice_witness :
  App.release_log
    (App.close MoreSamples.all_fine
       (App.close MoreSamples.all_fine Samples.browsing).2).2
  = [App.CancelDispatch; App.CloseEngine; App.CloseLongEngine;
     App.CloseBrowser; App.StopPlaywright;
     App.CancelDispatch; App.CloseEngine; App.CloseLongEngine;
     App.CloseBrowser; App.StopPlaywright].
Proof.
  destruct (close_twice_releases_twice MoreSamples.all_fine Samples.browsing)
    as (_ & _ & _ & _ & Hlog).
  - repeat constructor.
  - exact Hlog.
Defined.

(** Witness of [cancelled_loop_takes_nothing]. *)
Lemma cancelled_loop_takes_nothing_witness :
  App.taken
    (App.run [App.LoopTurn; App.Publish Samples.running; App.LoopTurn]
             (MoreSamples.cancelled, App.mkObserved (L:=nat) [] [])).2
  = [].
Proof.
  destruct (cancelled_loop_takes_nothing (L:=nat)
              [App.LoopTurn; App.Publish Samples.running; App.LoopTurn]
              MoreSamples.cancelled (App.mkObserved [] []))
    as [Htaken _]; [reflexivity|exact Htaken].
Defined.

(** Witness of [wait_unknown_name]. *)
Lemma wait_unknown_name_witness :
  wait Samples.rounds "zoe" [] Samples.delegating
  = (Ret usage, Samples.delegating).
Proof.
  apply (wait_unknown_name Samples.rounds "zoe" [] Samples.delegating).
  - reflexivity.
  - discriminate.
  - discriminate.
Defined.

(** Witness of [wait_named]: waiting for bob leaves ann pending. *)
Lemma wait_named_witness :
  wait Samples.rounds "bob" [] Samples.delegating
  = (Ret (block "bob" "three hotels"),
     waited (with_helper_futures
               (delete "bob" (helper_futures Samples.delegating))
               Samples.delegating)).
Proof.
  destruct (wait_named Samples.rounds "bob" [] Samples.delegating
              Samples.hotels) as [Hdone _].
  - reflexivity.
  - discriminate.
  - discriminate.
  - apply (Hdone 2 "three hotels" "bob"). reflexivity.
Defined.

Lemma failing_first_done :
  done_set MoreSamples.failing_rounds (values Samples.delegating)
           FIRST_COMPLETED [Samples.flights].
Proof.
  rewrite delegating_values. split; [discriminate|].
  split; [repeat constructor; by intros ?%not_elem_of_nil|].
  exists 1. intros f. split.
  - intros ->%list_elem_of_singleton. split; [by left|reflexivity].
  - intros [Hin Hfin].
    apply elem_of_cons in Hin as [->|Hin]; [by left|].
    apply list_elem_of_singleton in Hin as ->. vm_compute in Hfin.
    discriminate.
Defined.

(** C6, counterexample.  ann and bob are pending and ann's run raised at
    time 1: [asyncio.wait] hands back the set with ann's task, and
    [wait("next")] returns no text.  The exception leaves the call, and
    ann is still pending with that task, as is bob. *)
Lemma wait_next_popped_task_raised :
  helper_futures Samples.delegating ≠ ∅
  ∧ done_set MoreSamples.failing_rounds (values Samples.delegating)
             FIRST_COMPLETED [Samples.flights]
  ∧ wait MoreSamples.failing_rounds "next" [Samples.flights]
         Samples.delegating
    = (Raise (ExternalError "rate limit"), waited Samples.delegating)
  ∧ (∀ text final,
       wait MoreSamples.failing_rounds "next" [Samples.flights]
            Samples.delegating
       ≠ (Ret text, final))
  ∧ helper_futures (waited Samples.delegating) !! "ann"
    = Some Samples.flights
  ∧ helper_futures (waited Samples.delegating) !! "bob"
    = Some Samples.hotels.
Proof.
  assert (wait MoreSamples.failing_rounds "next" [Samples.flights]
               Samples.delegating
          = (Raise (ExternalError "rate limit"), waited Samples.delegating))
    as Hrun by (by vm_compute).
  split; [exact delegating_pending|]. split; [exact failing_first_done|].
  split; [exact Hrun|]. split; [by rewrite Hrun|].
  split; reflexivity.
Qed.

(** Witness of [wait_next_failed_task_stays]: ann's run raised. *)
Lemma wait_next_failed_task_stays_witness :
  wait MoreSamples.failing_rounds "next" [Samples.flights] Samples.delegating
  = (Raise (ExternalError "rate limit"), waited Samples.delegating).
Proof.
  destruct (wait_next_failed_task_stays MoreSamples.failing_rounds
              Samples.delegating [Samples.flights] Samples.flights 1
              (ExternalError "rate limit")) as [Hrun _].
  - exact failing_first_done.
  - reflexivity.
  - reflexivity.
  - exact Hrun.
Defined.

(** Witness of [wait_all_failed_task_keeps_pending]: bob's result is
    gathered, then ann's failure comes out. *)
Lemma wait_all_failed_task_keeps_pending_witness :
  wait MoreSamples.failing_rounds "all" [Samples.hotels; Samples.flights]
       Samples.delegating
  = (Raise (ExternalError "rate limit"), waited Samples.delegating).
Proof.
  destruct (wait_all_failed_task_keeps_pending MoreSamples.failing_rounds
              Samples.delegating [Samples.hotels; Samples.flights]
              [Samples.hotels] Samples.flights [] 1
              (ExternalError "rate limit")) as [Hrun _].
  - exact delegating_pending.
  - rewrite delegating_values. apply perm_swap.
  - rewrite delegating_values. repeat constructor.
  - reflexivity.
  - repeat constructor. by exists 2, ("three hotels", "bob").
  - reflexivity.
  - exact Hrun.
Defined.

(** Witness of [delegate_new_helper]. *)
Lemma delegate_new_helper_witness :
  delegate Samples.quote fuzz_ratio Samples.create "book a taxi" None
           (Samples.root [Samples.user "find hotel"])
  = (Ret (Samples.quote "helper-1" +:+ " is helping you with this request."),
     with_helper_futures
       (<["helper-1" := mkFuture Samples.fresh "book a taxi"]> ∅)
       (with_helpers (<["helper-1" := Samples.fresh]> ∅)
          (dispatch (KaniSpawn "helper-1" (Some "root") [] [])
                    (Samples.root [Samples.user "find hotel"])))).
Proof.
  destruct (delegate_new_helper Samples.quote fuzz_ratio Samples.create
              "book a taxi" None (Samples.root [Samples.user "find hotel"])
              Samples.fresh
              (dispatch (KaniSpawn "helper-1" (Some "root") [] [])
                        (Samples.root [Samples.user "find hotel"])))
    as [Hrun _].
  - by vm_compute.
  - by left.
  - reflexivity.
  - exact Hrun.
Defined.

(** Witness of [delegate_reuses_idle_helper]. *)
Lemma delegate_reuses_idle_helper_witness :
  delegate Samples.quote fuzz_ratio Samples.create "book a taxi" (Some "ann")
           MoreSamples.idle
  = (Ret (Samples.quote "ann" +:+ " is helping you with this request."),
     with_helper_futures
       (<["ann" := mkFuture Samples.ann "book a taxi"]> ∅) MoreSamples.idle).
Proof.
  destruct (delegate_reuses_idle_helper Samples.quote fuzz_ratio
              Samples.create "book a taxi" "ann" MoreSamples.idle Samples.ann)
    as [Hrun _].
  - by vm_compute.
  - discriminate.
  - reflexivity.
  - reflexivity.
  - exact Hrun.
Defined.

Lemma idle_consistent : consistent MoreSamples.idle.
Proof.
  split_and!.
  - apply (bool_decide_unpack
             (map_Forall (fun k h => helper_name h = k)
                         (helpers MoreSamples.idle))).
    vm_compute. exact I.
  - intros k f Hk. simpl in Hk. by rewrite lookup_empty in Hk.
  - intros k f Hk. simpl in Hk. by rewrite lookup_empty in Hk.
Defined.

(** Witness of [delegate_then_wait]: ann is asked and awaited. *)
Lemma delegate_then_wait_witness :
  ∃ asked final,
    delegate Samples.quote fuzz_ratio Samples.create "book a taxi"
             (Some "ann") MoreSamples.idle
    = (Ret (Samples.quote "ann" +:+ " is helping you with this request."),
       asked)
    ∧ wait Samples.rounds "ann" [] asked
      = (Ret (block "ann" "two flights"), final)
    ∧ helper_futures final = ∅.
Proof.
  destruct (delegate_then_wait Samples.quote fuzz_ratio Samples.create
              Samples.rounds "book a taxi" "ann" MoreSamples.idle
              Samples.ann 1 [Samples.assistant "two flights"] [])
    as (asked & final & Hask & Hwait & Hpending & _).
  - exact idle_consistent.
  - by vm_compute.
  - discriminate.
  - discriminate.
  - discriminate.
  - reflexivity.
  - reflexivity.
  - reflexivity.
  - exists asked, final. split; [exact Hask|]. split; [exact Hwait|].
    exact Hpending.
Defined.

(** The sample subclass only publishes the spawn. *)
Lemma create_consistent s r s' :
  Samples.create s = (r, s') → consistent s → consistent s'.
Proof. unfold Samples.create. by intros [= <- <-]. Defined.

(** Witness of [after_calls_consistent]. *)
Lemma after_calls_consistent_witness :
  consistent
    (Calls.after_calls Samples.quote fuzz_ratio Samples.create Samples.rounds
       [Calls.Delegate "book a taxi" None; Calls.Wait "next" [];
        Calls.Delegate "find trains" (Some "helper-1"); Calls.Wait "all" []]
       (Samples.root [Samples.user "find hotel"])).
Proof.
  apply (after_calls_consistent Samples.quote fuzz_ratio Samples.create
           Samples.rounds).
  - exact create_consistent.
  - exact (root_consistent [Samples.user "find hotel"]).
Defined.

(** Witness of [get_page_lazy]: the first page of a launched browser. *)
Lemma get_page_lazy_witness :
  BrowsingMixin.get_page MoreSamples.started MoreSamples.launched
    MoreSamples.opened true MoreSamples.off_page
  = (Ret (Some "tab-2"),
     BrowsingMixin.with_page (Some "tab-2") MoreSamples.off_page).
Proof.
  destruct (get_page_lazy MoreSamples.started MoreSamples.launched
              MoreSamples.opened MoreSamples.off_page) as (_ & _ & Hopen).
  destruct (Hopen "playwright" "chromium" "tab-2") as [Hrun _];
    [reflexivity..|exact Hrun].
Defined.

(** Witness of [cleanup_closes_once]. *)
Lemma cleanup_closes_once_witness :
  BrowsingMixin.closed_pages
    (BrowsingMixin.cleanup MoreSamples.closes MoreSamples.on_page).2
  = ["tab-1"].
Proof.
  destruct (cleanup_closes_once MoreSamples.closes MoreSamples.on_page)
    as (_ & _ & _ & Hclosed & _).
  - reflexivity.
  - exact Hclosed.
Defined.

(** Witness of [cleanup_failure_keeps_page]. *)
Lemma cleanup_failure_keeps_page_witness :
  BrowsingMixin.page
    (BrowsingMixin.cleanup MoreSamples.stuck MoreSamples.on_page).2
  = Some "tab-1".
Proof.
  destruct (cleanup_failure_keeps_page MoreSamples.stuck MoreSamples.on_page
              "tab-1") as (_ & Hpage & _).
  - reflexivity.
  - reflexivity.
  - exact Hpage.
Defined.

(** Witness of [search_no_match]: no article is called Nara. *)
Lemma search_no_match_witness :
  FanOutQAMixin.search MoreSamples.same MoreSamples.same MoreSamples.fill
    MoreSamples.wiki MoreSamples.text_of MoreSamples.ranking
    MoreSamples.token_len MoreSamples.first_user "Nara"
    (MoreSamples.searcher [])
  = (Ret (FanOutQAMixin.no_page ["Kyoto"; "Osaka"; "Tokyo"]),
     MoreSamples.searcher []).
Proof.
  apply (search_no_match MoreSamples.same MoreSamples.same MoreSamples.fill
           MoreSamples.wiki MoreSamples.text_of MoreSamples.ranking
           MoreSamples.token_len MoreSamples.first_user "Nara"
           (MoreSamples.searcher [])).
  repeat constructor; discriminate.
Defined.

(** Witness of [search_first_match]: Kyoto fits the short engine. *)
Lemma search_first_match_witness :
  FanOutQAMixin.search MoreSamples.same MoreSamples.same MoreSamples.fill
    MoreSamples.wiki MoreSamples.text_of MoreSamples.ranking
    MoreSamples.token_len MoreSamples.first_user "Kyoto"
    (MoreSamples.searcher [])
  = (Ret (FanOutQAMixin.full_content MoreSamples.fill MoreSamples.text_of
            MoreSamples.kyoto),
     FanOutQAMixin.dispatch
       (FanOutQAMixin.retrieved (MoreSamples.searcher []) MoreSamples.kyoto)
       (MoreSamples.searcher [])).
Proof.
  destruct (search_first_match MoreSamples.same MoreSamples.same
              MoreSamples.fill MoreSamples.wiki MoreSamples.text_of
              MoreSamples.ranking MoreSamples.token_len
              MoreSamples.first_user "Kyoto" (MoreSamples.searcher [])
              [] MoreSamples.kyoto [MoreSamples.osaka; MoreSamples.tokyo])
    as [_ Hfits].
  - reflexivity.
  - reflexivity.
  - constructor.
  - apply Hfits. vm_compute. lia.
Defined.

(** Witness of [search_upgrade_is_kept]: Osaka fits the long engine only. *)
Lemma search_upgrade_is_kept_witness :
  FanOutQAMixin.engine
    (FanOutQAMixin.search MoreSamples.same MoreSamples.same MoreSamples.fill
       MoreSamples.wiki MoreSamples.text_of MoreSamples.ranking
       MoreSamples.token_len MoreSamples.first_user "Osaka"
       (MoreSamples.searcher [])).2
  = MoreSamples.long.
Proof.
  destruct (search_upgrade_is_kept MoreSamples.same MoreSamples.same
              MoreSamples.fill MoreSamples.wiki MoreSamples.text_of
              MoreSamples.ranking MoreSamples.token_len
              MoreSamples.first_user "Osaka" (MoreSamples.searcher [])
              MoreSamples.osaka) as (_ & Hengine & _).
  - reflexivity.
  - vm_compute. lia.
  - exact Hengine.
Defined.

(** Witness of [search_packs_fragments]: Tokyo fits neither engine, three
    of the four fragments fit the long one. *)
Lemma search_packs_fragments_witness :
  ∃ n,
    (n ≤ 4)%nat
    ∧ FanOutQAMixin.search MoreSamples.same MoreSamples.same MoreSamples.fill
        MoreSamples.wiki MoreSamples.text_of MoreSamples.ranking
        MoreSamples.token_len MoreSamples.first_user "Tokyo"
        (MoreSamples.searcher [Samples.user "temples of Tokyo"])
      = (Ret (MoreSamples.fill (FanOutQAMixin.prompt "Tokyo")
                (String.concat ""
                   (FanOutQAMixin.fragment
                      <$> take n ["temples"; "gardens"; "castles";
                                  "markets"]))),
         FanOutQAMixin.with_engine MoreSamples.long
           (FanOutQAMixin.dispatch
              (FanOutQAMixin.retrieved
                 (MoreSamples.searcher [Samples.user "temples of Tokyo"])
                 MoreSamples.tokyo)
              (MoreSamples.searcher [Samples.user "temples of Tokyo"]))).
Proof.
  destruct (search_packs_fragments MoreSamples.same MoreSamples.same
              MoreSamples.fill MoreSamples.wiki MoreSamples.text_of
              MoreSamples.ranking MoreSamples.token_len
              MoreSamples.first_user "Tokyo"
              (MoreSamples.searcher [Samples.user "temples of Tokyo"])
              MoreSamples.tokyo (Samples.user "temples of Tokyo"))
    as (n & Hn & Hrun & _).
  - reflexivity.
  - vm_compute. lia.
  - vm_compute. lia.
  - reflexivity.
  - exists n. split; [exact Hn|exact Hrun].
Defined.

(** Witness of [search_without_user_message]. *)
Lemma search_without_user_message_witness :
  (FanOutQAMixin.search MoreSamples.same MoreSamples.same MoreSamples.fill
     MoreSamples.wiki MoreSamples.text_of MoreSamples.ranking
     MoreSamples.token_len MoreSamples.first_user "Tokyo"
     (MoreSamples.searcher [])).1
  = Raise (ExternalError "'NoneType' has no attribute 'text'").
Proof.
  rewrite (search_without_user_message MoreSamples.same MoreSamples.same
             MoreSamples.fill MoreSamples.wiki MoreSamples.text_of
             MoreSamples.ranking MoreSamples.token_len
             MoreSamples.first_user "Tokyo" (MoreSamples.searcher [])
             MoreSamples.tokyo).
  - reflexivity.
  - reflexivity.
  - vm_compute. lia.
  - vm_compute. lia.
  - reflexivity.
Defined.
